(** * loop-velocity: the recursive dependency collector of [Bugziller]

    A shallow embedding of the traversal code of [src/everything.js]
    (the [Bugziller] namespace object: [isMeta], [getBug],
    [getDependencies], [getAll]) and of [src/getAll.js] ([getBug2],
    [getDependencies2], [getAll2] and the older single-bug [getAll]).

    - Bug identifiers are integers ([Z]).
    - The module-level hashtable [checkedBugs] is a [gmap Z bool]; it
      lives in the [World] together with the log of the requests sent to
      the tracker, so that it persists from one call to the next exactly
      as the JS variable does.
    - A promise is a function from the world to the world it leaves and
      the way it settled; [None] means that the step budget (fuel) ran
      out before the promise settled.
    - The remote tracker is a parameter [fetch]: given the requests made
      so far and the batch requested now, it rejects or answers with a
      list of bug records, in whatever order it likes. *)

From Stdlib Require Import ZArith String Ascii List Lia.
From stdpp Require Import base option list gmap.

Local Open Scope Z_scope.

(** ** Data model *)

(** A bug as the REST answer has it.  [summary] is optional because
    [isMeta] guards against its absence. *)
Record Bug := mkBug {
  id : Z;
  summary : option string;
  resolution : string;
  depends_on : list Z
}.

(** What a rejected promise carries. *)
Inductive Reason :=
| NetworkError (msg : string)
| MalformedResponseError (msg : string)
| TypeError (msg : string).

(** How a promise settled. *)
Inductive Settled (A : Type) :=
| Fulfilled (value : A)
| RejectedWith (reason : Reason).
Arguments Fulfilled {A} value.
Arguments RejectedWith {A} reason.

(** [checkedBugs] and the requests sent so far, oldest first. *)
Record World := mkWorld {
  checkedBugs : gmap Z bool;
  requests : list (list Z)
}.

(** The state of a freshly loaded page. *)
Definition fresh : World := mkWorld ∅ [].

(** The tracker: earlier requests, the batch asked for, the answer. *)
Definition Fetch : Type := list (list Z) -> list Z -> Settled (list Bug).

Definition Promise (A : Type) : Type := World -> option (World * Settled A).

(** [Promise.resolve(a)] *)
Definition resolve {A} (a : A) : Promise A :=
  fun w => Some (w, Fulfilled a).

(** [p.then(f)]: [f] runs only if [p] is fulfilled; a rejection is passed
    on untouched. *)
Definition then_ {A B} (p : Promise A) (f : A -> Promise B) : Promise B :=
  fun w =>
    match p w with
    | None => None
    | Some (w1, RejectedWith e) => Some (w1, RejectedWith e)
    | Some (w1, Fulfilled a) => f a w1
    end.

(** The argument of [getAll]: one identifier or an array of them. *)
Inductive BugArg :=
| Single (n : Z)
| Array (l : list Z).

(** [[].concat(bugArray)] *)
Definition array_concat (bugArray : BugArg) : list Z :=
  match bugArray with
  | Single n => [n]
  | Array l => l
  end.

(** [!!checkedBugs[n]] *)
Definition isChecked (cb : gmap Z bool) (n : Z) : bool :=
  match cb !! n with
  | Some b => b
  | None => false
  end.

(** The [forEach] of [getBug] (everything.js, 610-618) and of [getBug2]
    (getAll.js, 78-86), which are the same loop:
    [dataList.forEach((bugData, position) => { if (!!checkedBugs[bugData.id])
    dataList.splice(position, 1); else checkedBugs[bugData.id] = true; })].
    [forEach] fixes the number of iterations at the length the array has
    when the loop starts and visits index [position] only if the array
    still has it; [splice] removes in place, so the element that follows a
    removed one moves down to [position] and is never visited. *)
Fixpoint forEach_purge (count position : nat) (dataList : list Bug)
    (cb : gmap Z bool) : list Bug * gmap Z bool :=
  match count with
  | O => (dataList, cb)
  | S count' =>
    match dataList !! position with
    | None => forEach_purge count' (S position) dataList cb
    | Some bugData =>
      if isChecked cb (id bugData)
      then forEach_purge count' (S position) (delete position dataList) cb
      else forEach_purge count' (S position) dataList (<[id bugData := true]> cb)
    end
  end.

(** The world after one more request has been sent. *)
Definition sent (w : World) (cb : gmap Z bool) (batch : list Z) : World :=
  mkWorld cb (requests w ++ [batch]).

(** [xs.concat(...)] under a promise: a rejection stays what it is. *)
Definition prepend (xs : list Z) (out : Settled (list Z)) : Settled (list Z) :=
  match out with
  | Fulfilled ys => Fulfilled (xs ++ ys)
  | RejectedWith e => RejectedWith e
  end.

(** The callback both [getDependencies] and [getDependencies2] hand to
    [reduce]: [(p,c) => p.then(partial => getAll(c.depends_on).then(depList
    => partial.concat(depList)))]. *)
Definition reducer (getAll : BugArg -> Promise (list Z))
    (p : Promise (list Z)) (c : Bug) : Promise (list Z) :=
  then_ p (fun partial =>
    then_ (getAll (Array (depends_on c))) (fun depList =>
      resolve (partial ++ depList))).

(** ** everything.js: the [Bugziller] namespace object (577-658) *)

Module Bugziller.

(** *** [isMeta] (581-588, and again 1115-1122) *)

Definition is_open (c : ascii) : bool :=
  (Ascii.eqb c "[" || Ascii.eqb c "|" || Ascii.eqb c "(")%bool.

Definition is_close (c : ascii) : bool :=
  (Ascii.eqb c "]" || Ascii.eqb c "|" || Ascii.eqb c ")")%bool.

(** [meta] and a closing character at the head of [s]. *)
Definition meta_then_close (s : string) : bool :=
  match s with
  | String "m" (String "e" (String "t" (String "a" (String d _)))) =>
    is_close d
  | _ => false
  end.

(** [new RegExp(/[\[|\(]meta[\]|\)]/).test(s)]: an unanchored,
    case-sensitive search. *)
Fixpoint metaReg_test (s : string) : bool :=
  match s with
  | EmptyString => false
  | String c rest => (is_open c && meta_then_close rest) || metaReg_test rest
  end.

(** [bug] may be [null] or [undefined] ([None]); its summary may be
    missing ([None]) or empty; all of these are falsy. *)
Definition isMeta (bug : option Bug) : bool :=
  match bug with
  | None => false
  | Some b =>
    match summary b with
    | None => false
    | Some EmptyString => false
    | Some s => metaReg_test s
    end
  end.

Section Traversal.

Variable fetch : Fetch.

(** [getBug(bugArray)] (603-622): one request for the whole batch,
    whatever [checkedBugs] holds, then the purge of the answer. *)
Definition getBug (bugArray : list Z) : Promise (list Bug) :=
  fun w =>
    match fetch (requests w) bugArray with
    | RejectedWith e => Some (sent w (checkedBugs w) bugArray, RejectedWith e)
    | Fulfilled dataList =>
      let '(purged, cb) :=
        forEach_purge (length dataList) 0 dataList (checkedBugs w) in
      Some (sent w cb bugArray, Fulfilled purged)
    end.

(** [getDependencies(bugList)] (628-636): the [reduce] that builds a
    promise chain, one [getAll] per record of [bugList]; the recursive
    [getAll] is a parameter here and is tied in [getAll] below. *)
Definition getDependencies (getAll : BugArg -> Promise (list Z))
    (bugList : list Bug) : Promise (list Z) :=
  fold_left (reducer getAll) bugList (resolve []).

(** [getAll(bugArray)] (642-658).  The empty batch costs nothing; every
    fetched batch costs one unit of fuel. *)
Fixpoint getAll (fuel : nat) (bugArray : BugArg) {struct fuel}
    : Promise (list Z) :=
  match array_concat bugArray with
  | [] => resolve []
  | n :: rest =>
    match fuel with
    | O => fun _ => None
    | S fuel' =>
      then_ (getBug (n :: rest)) (fun infoArray =>
        let list := map id infoArray in
        then_ (getDependencies (getAll fuel') infoArray) (fun depends =>
          resolve (list ++ depends)))
    end
  end.

End Traversal.

End Bugziller.

(** ** getAll.js *)

Module GetAllJs.

(** *** The batched traversal: [getBug2], [getDependencies2], [getAll2] *)

Section Traversal2.

Variable fetch : Fetch.

(** [getBug2(bugList)] (69-89).  [bugList] is the comma-joined batch;
    it is kept here as the list of identifiers it denotes.
    [data.bugs] is the array the loop splices, so what is returned is
    the purged array. *)
Definition getBug2 (bugList : list Z) : Promise (list Bug) :=
  fun w =>
    match fetch (requests w) bugList with
    | RejectedWith e => Some (sent w (checkedBugs w) bugList, RejectedWith e)
    | Fulfilled dataList =>
      let '(purged, cb) :=
        forEach_purge (length dataList) 0 dataList (checkedBugs w) in
      Some (sent w cb bugList, Fulfilled purged)
    end.

(** [getDependencies2(bugList)] (91-100) *)
Definition getDependencies2 (getAll2 : BugArg -> Promise (list Z))
    (bugList : list Bug) : Promise (list Z) :=
  fold_left (reducer getAll2) bugList (resolve []).

(** [getAll2(bugArray)] (102-121); the [isMeta] test around the
    [push] is commented out in the source. *)
Fixpoint getAll2 (fuel : nat) (bugArray : BugArg) {struct fuel}
    : Promise (list Z) :=
  match array_concat bugArray with
  | [] => resolve []
  | n :: rest =>
    match fuel with
    | O => fun _ => None
    | S fuel' =>
      then_ (getBug2 (n :: rest)) (fun bugList =>
        let list := map id bugList in
        then_ (getDependencies2 (getAll2 fuel') bugList) (fun depList =>
          resolve (list ++ depList)))
    end
  end.

End Traversal2.

(** *** The older single-bug traversal: [isMeta], [getBug],
    [getDependencies], [getAll] (18-67)

    Its only call is commented out (137-142). *)

(** The object [getAll] calls [bug], as far as the code reads it: the
    properties [summary] and [depends_on], either of which may be
    missing. *)
Record JsObject := mkObject {
  prop_summary : option string;
  prop_depends_on : option (list Z)
}.

Definition lower_ascii (c : ascii) : ascii :=
  let n := nat_of_ascii c in
  if ((65 <=? n)%nat && (n <=? 90)%nat)%bool
  then ascii_of_nat (n + 32)
  else c.

(** [s.toLowerCase()] on the ASCII letters. *)
Fixpoint toLowerCase (s : string) : string :=
  match s with
  | EmptyString => EmptyString
  | String c rest => String (lower_ascii c) (toLowerCase rest)
  end.

(** [isMeta(bug)] (18-21): [bug.summary.toLowerCase()] throws when the
    object has no [summary]. *)
Definition isMeta (bug : JsObject) : Settled bool :=
  match prop_summary bug with
  | None => RejectedWith (TypeError "bug.summary is undefined")
  | Some s =>
    match String.index 0 "meta" (toLowerCase s) with
    | Some _ => Fulfilled true
    | None => Fulfilled false
    end
  end.

(** A synchronous step inside a [then] callback: a throw rejects. *)
Definition settle {A} (r : Settled A) : Promise A :=
  fun w => Some (w, r).

Section Traversal1.

Variable fetch : Fetch.

(** [getBug(bugList)] (23-37), called with a number as [getAll] calls
    it: once the answer is parsed the callback evaluates
    [bugList.split(',')], which a number does not have, and throws before
    it marks anything or returns [data]. *)
Definition getBug (bugList : Z) : Promise JsObject :=
  fun w =>
    let w1 := sent w (checkedBugs w) [bugList] in
    match fetch (requests w) [bugList] with
    | RejectedWith e => Some (w1, RejectedWith e)
    | Fulfilled _ =>
      Some (w1, RejectedWith (TypeError "bugList.split is not a function"))
    end.

(** [getDependencies(bug)] (39-49) *)
Definition getDependencies (getAll : Z -> Promise (list JsObject))
    (bug : JsObject) : Promise (list JsObject) :=
  match prop_depends_on bug with
  | None => settle (RejectedWith (TypeError "bug.depends_on is undefined"))
  | Some deps =>
    fold_left
      (fun p c =>
         then_ p (fun partial =>
           then_ (getAll c) (fun depList => resolve (partial ++ depList))))
      deps (resolve [])
  end.

(** [getAll(bugNumber)] (51-67): the one variant that tests
    [checkedBugs] before fetching and [isMeta] before pushing. *)
Fixpoint getAll (fuel : nat) (bugNumber : Z) {struct fuel}
    : Promise (list JsObject) :=
  fun w =>
    if isChecked (checkedBugs w) bugNumber then resolve [] w
    else
      match fuel with
      | O => None
      | S fuel' =>
        then_ (getBug bugNumber) (fun bug =>
          then_ (settle (isMeta bug)) (fun meta =>
            let list := if meta then [] else [bug] in
            then_ (getDependencies (getAll fuel') bug) (fun depList =>
              resolve (list ++ depList)))) w
      end.

End Traversal1.

End GetAllJs.

(** ** A tracker that serves a finite dependency graph *)

(** The record the tracker holds for [n] in the graph [g], which maps an
    identifier to its dependency list. *)
Definition record_of (g : gmap Z (list Z)) (n : Z) : option Bug :=
  match g !! n with
  | Some deps => Some (mkBug n None EmptyString deps)
  | None => None
  end.

(** Answers in request order; unknown identifiers are silently absent. *)
Definition serve (g : gmap Z (list Z)) : Fetch :=
  fun _ batch => Fulfilled (omap (record_of g) batch).

(** [fetch] answers every request, in any order and with any summaries,
    with records of [g]: only records of requested identifiers, with the
    dependency list [g] gives them, and one at least for every requested
    identifier that [g] knows. *)
Definition answers_for (g : gmap Z (list Z)) (fetch : Fetch) : Prop :=
  forall history batch, exists dataList,
    fetch history batch = Fulfilled dataList /\
    (forall b, b ∈ dataList -> id b ∈ batch /\ g !! id b = Some (depends_on b)) /\
    (forall n, n ∈ batch -> is_Some (g !! n) ->
               exists b, b ∈ dataList /\ id b = n).

(** The depends-on relation of [g], followed from the roots through the
    bugs [g] has. *)
Inductive reachable (g : gmap Z (list Z)) (roots : list Z) : Z -> Prop :=
| reach_root n :
    n ∈ roots -> is_Some (g !! n) -> reachable g roots n
| reach_dep n deps d :
    reachable g roots n -> g !! n = Some deps -> d ∈ deps ->
    is_Some (g !! d) -> reachable g roots d.

(** [rank] decreases along every dependency edge of [g]: [g] has no cycle. *)
Definition ranked (g : gmap Z (list Z)) (rank : Z -> nat) : Prop :=
  forall n deps d, g !! n = Some deps -> d ∈ deps -> is_Some (g !! d) ->
                   (rank d < rank n)%nat.

(** ** Observations on a finished call *)

(** The list a call was fulfilled with, if it was. *)
Definition result_of {A} (r : option (World * Settled A)) : option A :=
  match r with
  | Some (_, Fulfilled a) => Some a
  | _ => None
  end.


(** In how many of the requests [reqs] the identifier [n] is included. *)
Definition request_count (n : Z) (reqs : list (list Z)) : nat :=
  length (filter (fun batch => n ∈ batch) reqs).

(** The requests that are actually sent: the non-empty ones. *)
Definition nonempty (batches : list (list Z)) : list (list Z) :=
  filter (fun batch => batch ≠ []) batches.

(** The sub-traversals [getDependencies] chains: one [getAll] per record,
    each started in the world the one before it left, all fulfilled. *)
Inductive subtraversals (fetch : Fetch) (fuel : nat)
  : list Bug -> World -> World -> list (list Z) -> Prop :=
| sub_nil w : subtraversals fetch fuel [] w w []
| sub_cons c bugList w w1 w2 r rs :
    Bugziller.getAll fetch fuel (Array (depends_on c)) w
      = Some (w1, Fulfilled r) ->
    subtraversals fetch fuel bugList w1 w2 rs ->
    subtraversals fetch fuel (c :: bugList) w w2 (r :: rs).

(** What the traversal reads of a record. *)
Definition key (b : Bug) : Z * list Z := (id b, depends_on b).

(** Two answers that differ at most in the summaries and resolutions of
    their records. *)
Definition same_ids_and_dependencies (a b : Settled (list Bug)) : Prop :=
  match a, b with
  | Fulfilled xs, Fulfilled ys =>
    map key xs = map key ys
  | RejectedWith e, RejectedWith e' => e = e'
  | _, _ => False
  end.

(** ** The traversal as the specification words it (section 4.2)

    Follows the spec, not the code: fetch the pending batch, keep the
    records not yet visited and mark them (a pure filter), take the union
    of their dependency lists without what is visited as the next pending
    batch, stop when it is empty; the result is this layer's survivors
    followed by the result of the next layer. *)

Fixpoint spec_filter (records : list Bug) (visited : gset Z)
    : list Bug * gset Z :=
  match records with
  | [] => ([], visited)
  | b :: rest =>
    if decide (id b ∈ visited) then spec_filter rest visited
    else let '(kept, v) := spec_filter rest ({[id b]} ∪ visited) in
         (b :: kept, v)
  end.

Fixpoint spec_collect_layers (g : gmap Z (list Z)) (fuel : nat)
    (pending : list Z) (visited : gset Z) : list Z :=
  match pending, fuel with
  | [], _ => []
  | _, O => []
  | _, S fuel' =>
    let '(survivors, visited') := spec_filter (omap (record_of g) pending) visited in
    let expanded :=
      remove_dups (filter (fun d => d ∉ visited')
                          (concat (map depends_on survivors))) in
    map id survivors ++ spec_collect_layers g fuel' expanded visited'
  end.

Definition spec_collect (g : gmap Z (list Z)) (fuel : nat) (roots : list Z)
    : list Z :=
  spec_collect_layers g fuel roots ∅.

(** ** Graphs used below *)

(** Three bugs, the third depending on the other two. *)
Definition g_pair : gmap Z (list Z) :=
  list_to_map [(1, []); (2, []); (3, [1; 2])].

(** The diamond of the specification's section 8. *)
Definition g_diamond : gmap Z (list Z) :=
  list_to_map [(1001, [2001]); (1002, [2001; 2002]); (2001, []); (2002, [])].

(** Bugs 1 and 3 depend on each other, and both on bug 2. *)
Definition g_cycle : gmap Z (list Z) :=
  list_to_map [(1, [2; 3]); (2, []); (3, [2; 1])].

(** The two-bug cycle of section 8. *)
Definition g_two : gmap Z (list Z) :=
  list_to_map [(1, [2]); (2, [1])].

(** A tree whose left branch is deeper than its right one. *)
Definition g_tree : gmap Z (list Z) :=
  list_to_map [(1, [2; 3]); (2, [4]); (3, [6]); (4, [5]); (5, []); (6, [])].

(** One bug without dependencies. *)
Definition g_one : gmap Z (list Z) := list_to_map [(1, [])].

(** The scenario of section 8: 5000 depends on 5001. *)
Definition g_chain : gmap Z (list Z) :=
  list_to_map [(5000, [5001]); (5001, [])].

(** ** What the request log says about failures *)

(** Every request of [new], sent after the requests [before], was
    answered. *)
Definition all_answered (fetch : Fetch) (before new : list (list Z)) : Prop :=
  forall i batch, new !! i = Some batch ->
    exists dataList, fetch (before ++ take i new) batch = Fulfilled dataList.

(** The last request of [new] was rejected with [e]; those before it were
    answered. *)
Definition failed_last (fetch : Fetch) (before new : list (list Z))
    (e : Reason) : Prop :=
  exists earlier last,
    new = earlier ++ [last] /\
    all_answered fetch before earlier /\
    fetch (before ++ earlier) last = RejectedWith e.

(** A call that took the world from [w] to [w'] and settled as [out]
    only added requests to the log; it was fulfilled only if all of them
    were answered, and rejected only with the reason of its last one. *)
Definition fail_fast_trace (fetch : Fetch) (w w' : World)
    (out : Settled (list Z)) : Prop :=
  exists new,
    requests w' = requests w ++ new /\
    match out with
    | Fulfilled _ => all_answered fetch (requests w) new
    | RejectedWith e => failed_last fetch (requests w) new e
    end.

(** What a fulfilled call says about the requests it sent: the result is
    the identifiers of the records [survivors] that, layer after layer,
    came through the purge, and the requests are [first] and the
    dependency lists of those records, the empty ones left out. *)
Definition requests_explained (first : list (list Z)) (w w' : World)
    (res : list Z) : Prop :=
  exists survivors new,
    res = map id survivors /\
    requests w' = requests w ++ new /\
    new ≡ₚ nonempty (first ++ map depends_on survivors).

(** A tracker that fails on the second bug of the chain. *)
Definition flaky : Fetch :=
  fun history batch =>
    if decide (batch = [5001]) then RejectedWith (NetworkError "offline")
    else serve g_chain history batch.

(** The tracker [fetch] with every summary replaced by [s]. *)
Definition with_summary (s : string) (fetch : Fetch) : Fetch :=
  fun history batch =>
    match fetch history batch with
    | Fulfilled dataList =>
      Fulfilled (map (fun b => mkBug (id b) (Some s) (resolution b) (depends_on b))
                     dataList)
    | RejectedWith e => RejectedWith e
    end.

(** What a fulfilled traversal of [batch] that took the world from [w] to
    [w'] achieves on the graph [g]: every identifier of the batch that [g]
    knows is listed unless it was checked before; so is every known
    dependency of a listed bug; whatever the traversal checks it lists;
    and it lists only what can be reached from the batch. *)
Definition covers (g : gmap Z (list Z)) (batch : list Z) (w w' : World)
    (res : list Z) : Prop :=
  (forall n, n ∈ batch -> is_Some (g !! n) ->
             n ∈ res \/ isChecked (checkedBugs w) n = true) /\
  (forall n deps d, n ∈ res -> g !! n = Some deps -> d ∈ deps ->
                    is_Some (g !! d) ->
                    d ∈ res \/ isChecked (checkedBugs w) d = true) /\
  (forall n, isChecked (checkedBugs w') n = true ->
             isChecked (checkedBugs w) n = true \/ n ∈ res) /\
  (forall n, n ∈ res -> reachable g batch n).

(** The same for the chain of traversals [getDependencies] runs over the
    records [bugList]. *)
Definition covers_deps (g : gmap Z (list Z)) (bugList : list Bug)
    (w w' : World) (res : list Z) : Prop :=
  (forall c d, c ∈ bugList -> d ∈ depends_on c -> is_Some (g !! d) ->
               d ∈ res \/ isChecked (checkedBugs w) d = true) /\
  (forall n deps d, n ∈ res -> g !! n = Some deps -> d ∈ deps ->
                    is_Some (g !! d) ->
                    d ∈ res \/ isChecked (checkedBugs w) d = true) /\
  (forall n, isChecked (checkedBugs w') n = true ->
             isChecked (checkedBugs w) n = true \/ n ∈ res) /\
  (forall n, n ∈ res -> exists c, c ∈ bugList /\ reachable g (depends_on c) n).

(** ** everything.js, the first script (1-549)

    The first of the three scripts the file holds: its own [Bugziller]
    (17-144), whose [isMeta] is the unguarded one and whose [getAll] lists
    the records themselves, and the page code that classifies what
    [getRel] returns. *)

Module First.

(** [isMeta(bug)] (42-45): [bug.summary.toLowerCase()] throws when the
    summary is missing; otherwise any occurrence of [meta], in any case,
    counts. *)
Definition isMeta (bug : Bug) : Settled bool :=
  match summary bug with
  | None => RejectedWith (TypeError "bug.summary is undefined")
  | Some s =>
    match String.index 0 "meta" (GetAllJs.toLowerCase s) with
    | Some _ => Fulfilled true
    | None => Fulfilled false
    end
  end.

(** [isClosed(bug)] (49-51): [!!bug.resolution]; a missing resolution is
    falsy like the empty string and is kept as the empty string. *)
Definition isClosed (bug : Bug) : bool :=
  negb (String.eqb (resolution bug) EmptyString).

Section Traversal.

Variable fetch : Fetch.

(** [getBug(bugArray)] (55-74), the same text as in the later scripts. *)
Definition getBug (bugArray : list Z) : Promise (list Bug) :=
  fun w =>
    match fetch (requests w) bugArray with
    | RejectedWith e => Some (sent w (checkedBugs w) bugArray, RejectedWith e)
    | Fulfilled dataList =>
      let '(purged, cb) :=
        forEach_purge (length dataList) 0 dataList (checkedBugs w) in
      Some (sent w cb bugArray, Fulfilled purged)
    end.

(** [getDependencies(bugList)] (78-86) *)
Definition getDependencies (getAll : BugArg -> Promise (list Bug))
    (bugList : list Bug) : Promise (list Bug) :=
  fold_left
    (fun p c =>
       then_ p (fun partial =>
         then_ (getAll (Array (depends_on c))) (fun depList =>
           resolve (partial ++ depList))))
    bugList (resolve []).

(** [getAll(bugArray)] (90-107): [list.push(bug)], the record and not its
    identifier. *)
Fixpoint getAll (fuel : nat) (bugArray : BugArg) {struct fuel}
    : Promise (list Bug) :=
  match array_concat bugArray with
  | [] => resolve []
  | n :: rest =>
    match fuel with
    | O => fun _ => None
    | S fuel' =>
      then_ (getBug (n :: rest)) (fun infoArray =>
        let list := infoArray in
        then_ (getDependencies (getAll fuel') infoArray) (fun depends =>
          resolve (list ++ depends)))
    end
  end.

End Traversal.

(** What [filterBugs] resolves with. *)
Record Classified := mkClassified {
  total : nat;
  metas : list Bug;
  taken : list Bug;
  fixed : list Bug
}.

(** The [forEach] of [filterBugs] (398-410); [isMeta] may throw, which
    ends the loop and the function. *)
Fixpoint forEach_classify (bugs metas taken fixed : list Bug)
    : Settled (list Bug * list Bug * list Bug) :=
  match bugs with
  | [] => Fulfilled (metas, taken, fixed)
  | bug :: rest =>
    match isMeta bug with
    | RejectedWith e => RejectedWith e
    | Fulfilled true => forEach_classify rest (metas ++ [bug]) taken fixed
    | Fulfilled false =>
      forEach_classify rest metas (taken ++ [bug])
        (if isClosed bug then fixed ++ [bug] else fixed)
    end
  end.

(** [filterBugs(list)] (389-417); [None] is [undefined], as argument and
    as result. *)
Definition filterBugs (list : option (list Bug)) : Settled (option Classified) :=
  match list with
  | None => Fulfilled None
  | Some l =>
    match forEach_classify l [] [] [] with
    | RejectedWith e => RejectedWith e
    | Fulfilled (metas, taken, fixed) =>
      Fulfilled (Some (mkClassified (length l) metas taken fixed))
    end
  end.

(** An entry of [RELEASES] (146-368); [bug] is present in the last entry
    only. *)
Record Release := mkRelease {
  name : string;
  start : string;
  end_ : string;
  bug : option BugArg
}.

(** Whether a [release.bug] that is present passes [if (release.bug)]:
    the number 0 does not, an array always does. *)
Definition truthy (b : BugArg) : bool :=
  match b with
  | Single n => negb (n =? 0)
  | Array _ => true
  end.

(** What a function hands back: a promise, or a plain value. *)
Inductive Returned (A : Type) :=
| Thenable (p : Promise A)
| Value (v : A).
Arguments Thenable {A} p.
Arguments Value {A} v.

(** What [then] makes of the value its callback returns. *)
Definition adopt {A} (r : Returned A) : Promise A :=
  match r with
  | Thenable p => p
  | Value v => resolve v
  end.

(** [getAllFromDates(start, end)] (115-121): builds two strings and
    returns nothing. *)
Definition getAllFromDates (start end_ : string) : option (list Bug) := None.

(** [getReleaseData(release)] (123-134); the list [getAll] resolves with
    is a defined value. *)
Definition getReleaseData (fetch : Fetch) (fuel : nat)
    (release : option Release) : Returned (option (list Bug)) :=
  match release with
  | None => Thenable (resolve None)
  | Some r =>
    match bug r with
    | Some b =>
      if truthy b
      then Thenable (then_ (getAll fetch fuel b) (fun l => resolve (Some l)))
      else Value (getAllFromDates (start r) (end_ r))
    | None => Value (getAllFromDates (start r) (end_ r))
    end
  end.

(** The first two steps of the callback of [RELEASES.reduce] (372-385):
    [Bugziller.getRel(release)], then [filterBugs(bugList)]; what follows,
    [printData], writes to the page. *)
Definition classifyRelease (fetch : Fetch) (fuel : nat)
    (release : option Release) : Promise (option Classified) :=
  then_ (adopt (getReleaseData fetch fuel release)) (fun bugList =>
    GetAllJs.settle (filterBugs bugList)).

End First.

(** ** everything.js, the second and third scripts: status and cleaning *)

Module Later.

(** [isClosed(bug)] (591-593, 1126-1128) *)
Definition isClosed (bug : Bug) : bool :=
  negb (String.eqb (resolution bug) EmptyString).

(** [isFixed(bug)] (596-598) *)
Definition isFixed (bug : Bug) : bool :=
  String.eqb (resolution bug) "FIXED".

(** One entry of what [filterBugs] resolves with. *)
Record Cleaned := mkCleaned {
  metas : list Bug;
  done : list Bug
}.

(** The [forEach] of [filterBugs] (897-906, 1548-1557):
    [if (Bugziller.isMeta(bug)) { metas.push(bug); bugList.splice(pos, 1); }],
    a splice inside the loop over the same array, as in [getBug]. *)
Fixpoint forEach_metas (count pos : nat) (bugList metas : list Bug)
    : list Bug * list Bug :=
  match count with
  | O => (metas, bugList)
  | S count' =>
    match bugList !! pos with
    | None => forEach_metas count' (S pos) bugList metas
    | Some bug =>
      if Bugziller.isMeta (Some bug)
      then forEach_metas count' (S pos) (delete pos bugList) (metas ++ [bug])
      else forEach_metas count' (S pos) bugList metas
    end
  end.

(** The callback of [filteredRelease.map]; [done] is the array that was
    passed in, after the splices.  An [undefined] list has no [forEach]. *)
Definition clean (bugList : option (list Bug)) : Settled Cleaned :=
  match bugList with
  | None => RejectedWith (TypeError "bugList is undefined")
  | Some l =>
    let '(metas, done) := forEach_metas (length l) 0 l [] in
    Fulfilled (mkCleaned metas done)
  end.

(** [Array.prototype.map] with a callback that may throw. *)
Fixpoint map_clean (lists : list (option (list Bug))) : Settled (list Cleaned) :=
  match lists with
  | [] => Fulfilled []
  | l :: rest =>
    match clean l with
    | RejectedWith e => RejectedWith e
    | Fulfilled c =>
      match map_clean rest with
      | RejectedWith e => RejectedWith e
      | Fulfilled cs => Fulfilled (c :: cs)
      end
    end
  end.

(** [filterBugs(filteredRelease)] (881-921, 1532-1572); [None] is
    [undefined]. *)
Definition filterBugs (filteredRelease : option (list (option (list Bug))))
    : Settled (option (list Cleaned)) :=
  match filteredRelease with
  | None => Fulfilled None
  | Some lists =>
    if negb (length lists =? 3)%nat then Fulfilled None
    else
      match map_clean lists with
      | RejectedWith e => RejectedWith e
      | Fulfilled cs => Fulfilled (Some cs)
      end
  end.

(** No meta bug of [l] is directly followed by another meta bug. *)
Fixpoint no_adjacent_metas (l : list Bug) : bool :=
  match l with
  | b1 :: ((b2 :: _) as rest) =>
    negb (Bugziller.isMeta (Some b1) && Bugziller.isMeta (Some b2))
    && no_adjacent_metas rest
  | _ => true
  end.

End Later.

(** The records [getAll] of the first script lists, as the later scripts
    list them: by identifier. *)
Definition ids_of (out : Settled (list Bug)) : Settled (list Z) :=
  match out with
  | Fulfilled l => Fulfilled (map id l)
  | RejectedWith e => RejectedWith e
  end.

(** Whether the first script's [isMeta] returns [true] for [bug]. *)
Definition says_meta (bug : Bug) : bool :=
  match First.isMeta bug with
  | Fulfilled true => true
  | _ => false
  end.

(** Whether the later scripts' [isMeta] returns [true] for [bug]. *)
Definition marked_meta (bug : Bug) : bool := Bugziller.isMeta (Some bug).

(** ** What a call asked and what it was told *)

(** The dependency list [g] has for [n]; the empty one when [g] does not
    know [n]. *)
Definition deps_of (g : gmap Z (list Z)) (n : Z) : list Z :=
  default [] (g !! n).

(** [b] is a record of an answer the tracker gave to a request that was
    sent while the world went from [w] to [w']: [batch], sent when the log
    was [history]. *)
Definition answered_during (fetch : Fetch) (w w' : World) (b : Bug) : Prop :=
  exists history batch dataList,
    requests w `prefix_of` history /\
    (history ++ [batch]) `prefix_of` requests w' /\
    fetch history batch = Fulfilled dataList /\
    b ∈ dataList.

(** [requests_explained], with the records tied to the tracker: each of
    [survivors] is a record of an answer given during the call. *)
Definition requests_accounted (fetch : Fetch) (first : list (list Z))
    (w w' : World) (res : list Z) : Prop :=
  exists survivors new,
    res = map id survivors /\
    requests w' = requests w ++ new /\
    Forall (answered_during fetch w w') survivors /\
    new ≡ₚ nonempty (first ++ map depends_on survivors).

(** [fetch'] answers as [fetch] does every request that is sent once the
    log has reached [lo] and that [hi] records. *)
Definition agree (fetch fetch' : Fetch) (lo hi : list (list Z)) : Prop :=
  forall history batch,
    lo `prefix_of` history -> (history ++ [batch]) `prefix_of` hi ->
    fetch' history batch = fetch history batch.

(** No bug of [g] depends on more than one bug. *)
Definition single_file (g : gmap Z (list Z)) : Prop :=
  forall n deps, g !! n = Some deps -> (length deps <= 1)%nat.

(** [fetch] never answers with more records than it was asked for. *)
Definition answers_once (fetch : Fetch) : Prop :=
  forall history batch dataList,
    fetch history batch = Fulfilled dataList ->
    (length dataList <= length batch)%nat.

(** The bugs of [g] that [cb] does not hold as checked. *)
Definition unchecked (g : gmap Z (list Z)) (cb : gmap Z bool) : list Z :=
  filter (fun n => isChecked cb n = false) (map fst (map_to_list g)).

(** Every record the tracker gives for [n] has a summary that [isMeta]
    takes for that of a meta bug. *)
Definition tracker_marks_meta (fetch : Fetch) (n : Z) : Prop :=
  forall history batch dataList b,
    fetch history batch = Fulfilled dataList -> b ∈ dataList -> id b = n ->
    Bugziller.isMeta (Some b) = true.

(** What the traversal that left the world [w'] and the result [res] did
    with the bug [n] of [g]: it was requested and the tracker answered
    with a record of it that [isMeta] takes for a meta bug; it is listed;
    its dependency list, unless empty, was requested in turn; and the
    dependencies [g] knows are listed as well. *)
Definition fetched_followed_listed (g : gmap Z (list Z)) (fetch : Fetch)
    (n : Z) (w' : World) (res : list Z) : Prop :=
  (exists batch b,
      batch ∈ requests w' /\ n ∈ batch /\
      answered_during fetch fresh w' b /\ id b = n /\
      Bugziller.isMeta (Some b) = true) /\
  n ∈ res /\
  (deps_of g n <> [] -> deps_of g n ∈ requests w') /\
  (forall d, d ∈ deps_of g n -> is_Some (g !! d) -> d ∈ res).

(** Bug 1 depends on bug 2, of which the tracker has no record. *)
Definition g_dangling : gmap Z (list Z) := list_to_map [(1, [2])].

(** The identifiers the depends-on lists of [g] lead to from the roots,
    whether [g] has a record of them or not. *)
Inductive named (g : gmap Z (list Z)) (roots : list Z) : Z -> Prop :=
| named_root n :
    n ∈ roots -> named g roots n
| named_dep n deps d :
    named g roots n -> g !! n = Some deps -> d ∈ deps -> named g roots d.

(** Ranks for the diamond and for the chain. *)
Definition rank_diamond (n : Z) : nat := if n <? 2000 then 1%nat else 0%nat.

Definition rank_chain (n : Z) : nat := if n =? 5000 then 1%nat else 0%nat.

(** * Properties *)

Import Bugziller.

(** ** How the promise chains unfold *)

Section Unfolding.

Variable fetch : Fetch.

Lemma getDependencies_nil rec w :
  getDependencies rec [] w = Some (w, Fulfilled []).
Proof. reflexivity. Qed.

(** The [reduce] started from any promise [p]: [p] first, then the chain. *)
Lemma reduce_from rec (bugList : list Bug) (p : Promise (list Z)) w :
  fold_left (reducer rec) bugList p w
  = match p w with
    | None => None
    | Some (w1, RejectedWith e) => Some (w1, RejectedWith e)
    | Some (w1, Fulfilled partial) =>
      match getDependencies rec bugList w1 with
      | None => None
      | Some (w2, out) => Some (w2, prepend partial out)
      end
    end.
Proof.
  revert p w. induction bugList as [|c l IH]; intros p w.
  - simpl. destruct (p w) as [[w1 [partial|e]]|]; try reflexivity.
    simpl. now rewrite app_nil_r.
  - simpl. rewrite IH. unfold reducer at 1, then_ at 1.
    destruct (p w) as [[w1 [partial|e]]|]; try reflexivity.
    change (getDependencies rec (c :: l) w1)
      with (fold_left (reducer rec) l (reducer rec (resolve []) c) w1).
    rewrite IH. unfold reducer, then_, resolve.
    destruct (rec (Array (depends_on c)) w1) as [[w2 [r|e]]|]; try reflexivity.
    destruct (getDependencies rec l w2) as [[w3 [rs|e]]|]; try reflexivity.
    simpl. now rewrite app_assoc.
Qed.

Lemma getDependencies_cons rec c bugList w :
  getDependencies rec (c :: bugList) w
  = match rec (Array (depends_on c)) w with
    | None => None
    | Some (w1, RejectedWith e) => Some (w1, RejectedWith e)
    | Some (w1, Fulfilled r) =>
      match getDependencies rec bugList w1 with
      | None => None
      | Some (w2, out) => Some (w2, prepend r out)
      end
    end.
Proof.
  unfold getDependencies at 1. simpl. rewrite reduce_from.
  unfold reducer, then_, resolve. simpl.
  destruct (rec (Array (depends_on c)) w) as [[w1 [r|e]]|]; reflexivity.
Qed.

Lemma getAll_empty fuel bugArray w :
  array_concat bugArray = [] ->
  getAll fetch fuel bugArray w = Some (w, Fulfilled []).
Proof. intros E. destruct fuel; simpl; rewrite E; reflexivity. Qed.

Lemma getAll_out_of_fuel bugArray w :
  array_concat bugArray <> [] -> getAll fetch 0 bugArray w = None.
Proof. simpl. destruct (array_concat bugArray); [congruence | reflexivity]. Qed.

(** One layer of [getAll]: the request, the purge, the chain. *)
Lemma getAll_step fuel bugArray w :
  array_concat bugArray <> [] ->
  getAll fetch (S fuel) bugArray w
  = match fetch (requests w) (array_concat bugArray) with
    | RejectedWith e =>
      Some (sent w (checkedBugs w) (array_concat bugArray), RejectedWith e)
    | Fulfilled dataList =>
      let '(infoArray, cb) :=
        forEach_purge (length dataList) 0 dataList (checkedBugs w) in
      match getDependencies (getAll fetch fuel) infoArray
              (sent w cb (array_concat bugArray)) with
      | None => None
      | Some (w2, out) => Some (w2, prepend (map id infoArray) out)
      end
    end.
Proof.
  intros E. simpl. destruct (array_concat bugArray) as [|n rest]; [congruence|].
  unfold then_, getBug.
  destruct (fetch (requests w) (n :: rest)) as [dataList|e]; [|reflexivity].
  destruct (forEach_purge _ _ _ _) as [infoArray cb].
  destruct (getDependencies _ _ _) as [[w2 [depends|e]]|]; reflexivity.
Qed.

(** *** An induction principle over the runs of [getAll] *)

Section RunInduction.

Variable P : list Z -> World -> World -> Settled (list Z) -> Prop.
Variable Q : list Bug -> World -> World -> Settled (list Z) -> Prop.

Hypothesis P_empty : forall w, P [] w w (Fulfilled []).
Hypothesis P_reject : forall batch w e,
  batch <> [] -> fetch (requests w) batch = RejectedWith e ->
  P batch w (sent w (checkedBugs w) batch) (RejectedWith e).
Hypothesis P_fulfil : forall batch w dataList infoArray cb w' out,
  batch <> [] -> fetch (requests w) batch = Fulfilled dataList ->
  forEach_purge (length dataList) 0 dataList (checkedBugs w) = (infoArray, cb) ->
  Q infoArray (sent w cb batch) w' out ->
  P batch w w' (prepend (map id infoArray) out).
Hypothesis Q_nil : forall w, Q [] w w (Fulfilled []).
Hypothesis Q_reject : forall c bugList w w1 e,
  P (depends_on c) w w1 (RejectedWith e) ->
  Q (c :: bugList) w w1 (RejectedWith e).
Hypothesis Q_cons : forall c bugList w w1 r w2 out,
  P (depends_on c) w w1 (Fulfilled r) -> Q bugList w1 w2 out ->
  Q (c :: bugList) w w2 (prepend r out).

Lemma getDependencies_run fuel :
  (forall bugArray w w' out,
      getAll fetch fuel bugArray w = Some (w', out) ->
      P (array_concat bugArray) w w' out) ->
  forall bugList w w' out,
    getDependencies (getAll fetch fuel) bugList w = Some (w', out) ->
    Q bugList w w' out.
Proof.
  intros HP bugList. induction bugList as [|c l IH]; intros w w' out H.
  - rewrite getDependencies_nil in H. injection H as <- <-. apply Q_nil.
  - rewrite getDependencies_cons in H.
    destruct (getAll fetch fuel (Array (depends_on c)) w)
      as [[w1 [r|e]]|] eqn:E; try discriminate.
    + destruct (getDependencies (getAll fetch fuel) l w1)
        as [[w2 out2]|] eqn:E2; try discriminate.
      injection H as <- <-.
      apply Q_cons with w1; [apply (HP _ _ _ _ E) | now apply IH].
    + injection H as <- <-. apply Q_reject. apply (HP _ _ _ _ E).
Qed.

Lemma getAll_run fuel : forall bugArray w w' out,
  getAll fetch fuel bugArray w = Some (w', out) ->
  P (array_concat bugArray) w w' out.
Proof.
  induction fuel as [|fuel IH]; intros bugArray w w' out H.
  - destruct (array_concat bugArray) eqn:E.
    + rewrite getAll_empty in H by assumption. injection H as <- <-.
      apply P_empty.
    + rewrite getAll_out_of_fuel in H by congruence. discriminate.
  - destruct (array_concat bugArray) as [|n rest] eqn:E.
    + rewrite getAll_empty in H by assumption. injection H as <- <-.
      apply P_empty.
    + rewrite getAll_step in H by congruence. rewrite E in H.
      destruct (fetch (requests w) (n :: rest)) as [dataList|e] eqn:F.
      * destruct (forEach_purge _ _ _ _) as [infoArray cb] eqn:G.
        destruct (getDependencies _ _ _) as [[w2 out2]|] eqn:D;
          try discriminate.
        injection H as <- <-.
        apply P_fulfil with dataList cb; try congruence.
        eapply getDependencies_run; eauto.
      * injection H as <- <-. apply P_reject; congruence.
Qed.

End RunInduction.

(** *** More fuel changes nothing *)

Lemma getDependencies_more_fuel fuel bugList :
  (forall bugArray w r,
      getAll fetch fuel bugArray w = Some r ->
      getAll fetch (S fuel) bugArray w = Some r) ->
  forall w r,
    getDependencies (getAll fetch fuel) bugList w = Some r ->
    getDependencies (getAll fetch (S fuel)) bugList w = Some r.
Proof.
  intros IH. induction bugList as [|c l IHl]; intros w r H; [exact H|].
  rewrite getDependencies_cons in *.
  destruct (getAll fetch fuel (Array (depends_on c)) w)
    as [[w1 [res|e]]|] eqn:E; try discriminate;
    rewrite (IH _ _ _ E); [|exact H].
  destruct (getDependencies (getAll fetch fuel) l w1) as [r2|] eqn:E2;
    try discriminate.
  now rewrite (IHl _ _ E2).
Qed.

(** A call that settles with some fuel settles the same way with more. *)
Lemma getAll_more_fuel fuel : forall bugArray w r,
  getAll fetch fuel bugArray w = Some r ->
  getAll fetch (S fuel) bugArray w = Some r.
Proof.
  induction fuel as [|fuel IH]; intros bugArray w r H;
    destruct (array_concat bugArray) as [|n rest] eqn:E.
  - now rewrite getAll_empty in * by assumption.
  - rewrite getAll_out_of_fuel in H by congruence. discriminate.
  - now rewrite getAll_empty in * by assumption.
  - rewrite getAll_step in * by congruence. rewrite E in *.
    destruct (fetch (requests w) (n :: rest)) as [dataList|e]; [|exact H].
    destruct (forEach_purge _ _ _ _) as [infoArray cb].
    destruct (getDependencies (getAll fetch fuel) infoArray _)
      as [r2|] eqn:D; try discriminate.
    now rewrite (getDependencies_more_fuel fuel infoArray IH _ _ D).
Qed.

End Unfolding.

(** ** The purge loop *)

Lemma isChecked_empty n : isChecked ∅ n = false.
Proof. unfold isChecked. now rewrite lookup_empty. Qed.

Lemma isChecked_insert (cb : gmap Z bool) k n :
  isChecked (<[k := true]> cb) n = true <-> n = k \/ isChecked cb n = true.
Proof.
  unfold isChecked. destruct (decide (k = n)) as [->|Hne].
  - rewrite lookup_insert_eq. tauto.
  - rewrite lookup_insert_ne by assumption. split; [tauto|].
    intros [->|H]; [congruence | assumption].
Qed.

Lemma elem_of_delete_or {A} (l : list A) i x b :
  l !! i = Some x -> b ∈ l -> b = x \/ b ∈ delete i l.
Proof.
  intros Hi Hb. apply list_elem_of_lookup in Hb as [j Hj].
  destruct (lt_eq_lt_dec j i) as [[Hlt|Heq]|Hgt].
  - right. apply list_elem_of_lookup. exists j.
    now rewrite list_lookup_delete_lt.
  - left. subst j. congruence.
  - right. apply list_elem_of_lookup. exists (pred j).
    rewrite list_lookup_delete_ge by lia.
    now replace (S (pred j)) with j by lia.
Qed.

(** What the loop guarantees, skipped elements included: the part of the
    array before [position] is left alone; nothing is added; a record
    that is dropped had its identifier checked; whatever is newly checked
    is the identifier of a record that is kept; nothing is unchecked. *)
Lemma forEach_purge_spec count : forall position dataList cb infoArray cb',
  forEach_purge count position dataList cb = (infoArray, cb') ->
  (forall j, (j < position)%nat -> infoArray !! j = dataList !! j) /\
  (forall b, b ∈ infoArray -> b ∈ dataList) /\
  (forall b, b ∈ dataList ->
             id b ∈ map id infoArray \/ isChecked cb (id b) = true) /\
  (forall n, isChecked cb' n = true ->
             isChecked cb n = true \/ n ∈ map id infoArray) /\
  (forall n, isChecked cb n = true -> isChecked cb' n = true).
Proof.
  induction count as [|count IH]; intros position dataList cb infoArray cb' H;
    simpl in H.
  - injection H as <- <-. repeat split; auto.
    intros b Hb. left. apply list_elem_of_fmap. now exists b.
  - destruct (dataList !! position) as [bugData|] eqn:E.
    + destruct (isChecked cb (id bugData)) eqn:C.
      * apply IH in H as (H1 & H2 & H3 & H4 & H5).
        refine (conj _ (conj _ (conj _ (conj H4 H5)))).
        -- intros j Hj. rewrite H1 by lia. now apply list_lookup_delete_lt.
        -- intros b Hb. eapply list_elem_of_delete_inv. eauto.
        -- intros b Hb.
           destruct (elem_of_delete_or _ _ _ _ E Hb) as [->|Hd]; auto.
      * apply IH in H as (H1 & H2 & H3 & H4 & H5).
        assert (Hkept : id bugData ∈ map id infoArray).
        { apply list_elem_of_fmap. exists bugData. split; [reflexivity|].
          apply list_elem_of_lookup. exists position.
          rewrite H1 by lia. assumption. }
        refine (conj _ (conj H2 (conj _ (conj _ _)))).
        -- intros j Hj. apply H1. lia.
        -- intros b Hb. destruct (H3 b Hb) as [?|Hc]; auto.
           apply isChecked_insert in Hc as [Hc|?]; auto.
           rewrite Hc. auto.
        -- intros n Hn. destruct (H4 n Hn) as [Hc|?]; auto.
           apply isChecked_insert in Hc as [Hc|?]; auto.
           rewrite Hc. auto.
        -- intros n Hn. apply H5, isChecked_insert. auto.
    + apply IH in H as (H1 & H2 & H3 & H4 & H5).
      refine (conj _ (conj H2 (conj H3 (conj H4 H5)))).
      intros j Hj. apply H1. lia.
Qed.

(** ** Empty input *)

(** C8. Called with an empty collection of roots, [getAll] (and [getAll2])
    is fulfilled with the empty list at once, whatever the fuel, and the
    world is left as it was: no request is sent and nothing is checked. *)
Theorem getAll_empty_roots (fetch : Fetch) (fuel : nat) (w : World) :
  getAll fetch fuel (Array []) w = Some (w, Fulfilled []) /\
  GetAllJs.getAll2 fetch fuel (Array []) w = Some (w, Fulfilled []).
Proof. destruct fuel; split; reflexivity. Qed.

(** ** [isMeta] on absent data *)

(** C10. [isMeta] answers [false], and throws nothing, for a [null] or
    [undefined] bug, for a bug without summary and for a bug whose summary
    is the empty string. *)
Theorem isMeta_absent_is_false (n : Z) (r : string) (deps : list Z) :
  isMeta None = false /\
  isMeta (Some (mkBug n None r deps)) = false /\
  isMeta (Some (mkBug n (Some EmptyString) r deps)) = false.
Proof. repeat split. Qed.

Example isMeta_bracketed :
  isMeta (Some (mkBug 1 (Some "[meta] Hello 1.2"%string) EmptyString [])) = true.
Proof. reflexivity. Qed.

Example isMeta_is_case_sensitive :
  isMeta (Some (mkBug 1 (Some "[Meta] Hello 1.2"%string) EmptyString [])) = false.
Proof. reflexivity. Qed.

(** ** What the splice inside the [forEach] does *)

(** Two records that are both checked already: the first is removed, the
    second moves to index 0 and the loop, now at index 1, never tests it. *)
Lemma forEach_purge_skips (b1 b2 : Bug) (cb : gmap Z bool) :
  isChecked cb (id b1) = true ->
  forEach_purge 2 0 [b1; b2] cb = ([b2], cb).
Proof. intros H. simpl. now rewrite H. Qed.

(** C2. On the graph where bug 3 depends on bugs 1 and 2, called with the
    roots 1, 2, 3 on a fresh page, [getAll] is fulfilled with
    [[1; 2; 3; 2]]: bug 2 occurs twice.  The answer to the second request,
    [[1; 2]], holds two checked records in a row; the loop removes the
    first and skips the second. *)
Theorem getAll_duplicates_skipped_record (fuel : nat) :
  result_of (getAll (serve g_pair) (S (S fuel)) (Array [1; 2; 3]) fresh)
    = Some [1; 2; 3; 2] /\
  ~ NoDup [1; 2; 3; 2].
Proof.
  split.
  - destruct fuel; vm_compute; reflexivity.
  - intros H. apply NoDup_cons in H as [_ H]. apply NoDup_cons in H as [H _].
    apply H. repeat constructor.
Qed.

(** ** A traversal that never settles *)

(** Once bugs 1, 2 and 3 are checked, a request for [[2; 3]] leads to a
    request for [[2; 1]] and the other way round. *)
Lemma getAll_cycle_loop (fuel : nat) : forall w,
  isChecked (checkedBugs w) 2 = true ->
  getAll (serve g_cycle) fuel (Array [2; 3]) w = None /\
  getAll (serve g_cycle) fuel (Array [2; 1]) w = None.
Proof.
  induction fuel as [|fuel IH]; intros w H2; [split; reflexivity|].
  split; rewrite getAll_step by discriminate.
  - change (serve g_cycle (requests w) (array_concat (Array [2; 3])))
      with (Fulfilled [mkBug 2 None EmptyString [];
                       mkBug 3 None EmptyString [2; 1]]).
    cbv beta iota zeta. simpl length.
    rewrite forEach_purge_skips by exact H2.
    rewrite getDependencies_cons.
    change (depends_on (mkBug 3 None EmptyString [2; 1])) with [2; 1].
    now destruct (IH (sent w (checkedBugs w) (array_concat (Array [2; 3]))) H2)
      as [_ ->].
  - change (serve g_cycle (requests w) (array_concat (Array [2; 1])))
      with (Fulfilled [mkBug 2 None EmptyString [];
                       mkBug 1 None EmptyString [2; 3]]).
    cbv beta iota zeta. simpl length.
    rewrite forEach_purge_skips by exact H2.
    rewrite getDependencies_cons.
    change (depends_on (mkBug 1 None EmptyString [2; 3])) with [2; 3].
    now destruct (IH (sent w (checkedBugs w) (array_concat (Array [2; 1]))) H2)
      as [-> _].
Qed.

(** C4. On the graph where bugs 1 and 3 depend on each other and both
    depend on bug 2, called with the root 1 on a fresh page, [getAll]
    never settles: no amount of fuel is enough.  The first two answers
    check the three bugs; from then on every answer loses bug 2 to the
    splice and keeps the bug behind it untested, and that bug asks for
    the other one again. *)
Theorem getAll_never_settles_on_cycle (fuel : nat) :
  getAll (serve g_cycle) fuel (Single 1) fresh = None.
Proof.
  destruct fuel as [|fuel]; [reflexivity|].
  rewrite getAll_step by discriminate.
  change (serve g_cycle (requests fresh) (array_concat (Single 1)))
    with (Fulfilled [mkBug 1 None EmptyString [2; 3]]).
  cbv beta iota zeta.
  change (forEach_purge _ 0 _ (checkedBugs fresh))
    with ([mkBug 1 None EmptyString [2; 3]], <[1 := true]> (∅ : gmap Z bool)).
  cbv beta iota zeta. rewrite getDependencies_cons.
  change (depends_on (mkBug 1 None EmptyString [2; 3])) with [2; 3].
  destruct fuel as [|fuel]; [reflexivity|].
  rewrite getAll_step by discriminate.
  match goal with
  | |- context [serve g_cycle ?h (array_concat (Array [2; 3]))] =>
    change (serve g_cycle h (array_concat (Array [2; 3])))
      with (Fulfilled [mkBug 2 None EmptyString [];
                       mkBug 3 None EmptyString [2; 1]])
  end.
  cbv beta iota zeta.
  match goal with
  | |- context [forEach_purge ?n 0 ?l ?cb] =>
    change (forEach_purge n 0 l cb)
      with (l, <[3 := true]> (<[2 := true]> (<[1 := true]> (∅ : gmap Z bool))))
  end.
  cbv beta iota zeta. rewrite getDependencies_cons.
  rewrite getAll_empty by reflexivity.
  rewrite getDependencies_cons.
  change (depends_on (mkBug 3 None EmptyString [2; 1])) with [2; 1].
  match goal with
  | |- context [getAll (serve g_cycle) fuel (Array [2; 1]) ?w] =>
    now destruct (getAll_cycle_loop fuel w eq_refl) as [_ ->]
  end.
Qed.

(** The two-bug cycle of the specification does settle, and each of the
    two bugs is listed once. *)
Lemma getAll_two_bug_cycle (fuel : nat) :
  result_of (getAll (serve g_two) (S (S (S fuel))) (Single 1) fresh)
    = Some [1; 2].
Proof. destruct fuel; vm_compute; reflexivity. Qed.

(** ** Failures *)

Section FailFast.

Variable fetch : Fetch.

Lemma all_answered_nil before : all_answered fetch before [].
Proof. intros i batch H. now rewrite lookup_nil in H. Qed.

Lemma all_answered_one before batch dataList :
  fetch before batch = Fulfilled dataList ->
  all_answered fetch before [batch].
Proof.
  intros F i b H. destruct i as [|i]; simpl in H.
  - injection H as <-. exists dataList. simpl. now rewrite app_nil_r.
  - now rewrite lookup_nil in H.
Qed.

Lemma all_answered_app before new1 new2 :
  all_answered fetch before new1 ->
  all_answered fetch (before ++ new1) new2 ->
  all_answered fetch before (new1 ++ new2).
Proof.
  intros H1 H2 i batch H.
  destruct (decide (i < length new1)%nat) as [Hlt|Hge].
  - rewrite lookup_app_l in H by assumption.
    rewrite take_app_le by lia. now apply H1.
  - rewrite lookup_app_r in H by lia.
    rewrite take_app_ge by lia. rewrite app_assoc. now apply H2.
Qed.

Lemma failed_last_app before new1 new2 e :
  all_answered fetch before new1 ->
  failed_last fetch (before ++ new1) new2 e ->
  failed_last fetch before (new1 ++ new2) e.
Proof.
  intros H1 (earlier & last & -> & H2 & F).
  exists (new1 ++ earlier), last. split; [now rewrite app_assoc|].
  split; [now apply all_answered_app | now rewrite app_assoc].
Qed.

Lemma fail_fast_trace_seq w w1 w2 r out :
  fail_fast_trace fetch w w1 (Fulfilled r) ->
  fail_fast_trace fetch w1 w2 out ->
  fail_fast_trace fetch w w2 (prepend r out).
Proof.
  intros (new1 & E1 & H1) (new2 & E2 & H2).
  exists (new1 ++ new2). split; [now rewrite E2, E1, app_assoc|].
  rewrite E1 in H2. destruct out as [rs|e]; simpl.
  - now apply all_answered_app.
  - now apply failed_last_app.
Qed.

Lemma getAll_fail_fast_trace fuel bugArray w w' out :
  getAll fetch fuel bugArray w = Some (w', out) ->
  fail_fast_trace fetch w w' out.
Proof.
  intros H.
  refine (getAll_run fetch
            (fun _ w w' out => fail_fast_trace fetch w w' out)
            (fun _ w w' out => fail_fast_trace fetch w w' out)
            _ _ _ _ _ _ fuel bugArray w w' out H); clear.
  - intros w. exists []. split; [now rewrite app_nil_r|].
    apply all_answered_nil.
  - intros batch w e _ F. exists [batch]. split; [reflexivity|].
    exists [], batch. rewrite app_nil_r.
    split; [reflexivity|]. split; [apply all_answered_nil | assumption].
  - intros batch w dataList infoArray cb w' out _ F _ HQ.
    apply fail_fast_trace_seq with (sent w cb batch); [|assumption].
    exists [batch]. split; [reflexivity|].
    now apply all_answered_one with dataList.
  - intros w. exists []. split; [now rewrite app_nil_r|].
    apply all_answered_nil.
  - intros c bugList w w1 e HP. assumption.
  - intros c bugList w w1 r w2 out HP HQ.
    now apply fail_fast_trace_seq with w1.
Qed.

End FailFast.

(** *** A rejected request ends the call *)

Lemma getAll_log_grows (fetch : Fetch) fuel bugArray w w' out :
  getAll fetch fuel bugArray w = Some (w', out) ->
  requests w `prefix_of` requests w'.
Proof.
  intros H. apply getAll_fail_fast_trace in H as (new & E & _).
  rewrite E. now apply prefix_app_r.
Qed.

Lemma getDependencies_log_grows (fetch : Fetch) fuel bugList : forall w w' out,
  getDependencies (getAll fetch fuel) bugList w = Some (w', out) ->
  requests w `prefix_of` requests w'.
Proof.
  induction bugList as [|c l IH]; intros w w' out H.
  - rewrite getDependencies_nil in H. now injection H as <- <-.
  - rewrite getDependencies_cons in H.
    destruct (getAll fetch fuel (Array (depends_on c)) w)
      as [[w1 [r|e]]|] eqn:E; try discriminate.
    + destruct (getDependencies (getAll fetch fuel) l w1)
        as [[w2 out2]|] eqn:E2; try discriminate.
      injection H as <- <-. etransitivity.
      * eapply getAll_log_grows. exact E.
      * eapply IH. exact E2.
    + injection H as <- <-. eapply getAll_log_grows. exact E.
Qed.

(** A log that is a prefix of [h ++ [batch]] is that log or a prefix of
    [h]. *)
Lemma prefix_snoc_inv {A} (l h : list A) (x : A) :
  l `prefix_of` h ++ [x] -> l = h ++ [x] \/ l `prefix_of` h.
Proof.
  intros [k E]. destruct k as [|y k' _] using rev_ind.
  - left. now rewrite app_nil_r in E.
  - right. rewrite app_assoc in E. apply app_inj_tail in E as [-> _].
    now exists k'.
Qed.

Section Injection.

Variables fetch0 fetch : Fetch.
Variable h : list (list Z).
Variable batch : list Z.
Variable e : Reason.

Lemma agree_later lo lo' hi :
  lo `prefix_of` lo' -> agree fetch0 fetch lo hi -> agree fetch0 fetch lo' hi.
Proof.
  intros Hlo Ha history b H1 H2. apply Ha; [|assumption].
  now transitivity lo'.
Qed.

(** As long as the log stays within [h], the call under [fetch] is the
    call under [fetch0]. *)
Lemma getDependencies_agree fuel :
  (forall bugArray w w0 out0,
      getAll fetch0 fuel bugArray w = Some (w0, out0) ->
      requests w0 `prefix_of` h -> agree fetch0 fetch (requests w) h ->
      getAll fetch fuel bugArray w = Some (w0, out0)) ->
  forall bugList w w0 out0,
    getDependencies (getAll fetch0 fuel) bugList w = Some (w0, out0) ->
    requests w0 `prefix_of` h -> agree fetch0 fetch (requests w) h ->
    getDependencies (getAll fetch fuel) bugList w = Some (w0, out0).
Proof.
  intros IH bugList. induction bugList as [|c l IHl]; intros w w0 out0 H Hp Ha.
  - exact H.
  - rewrite getDependencies_cons in H |- *.
    destruct (getAll fetch0 fuel (Array (depends_on c)) w)
      as [[w1 [r|e1]]|] eqn:E; try discriminate.
    + destruct (getDependencies (getAll fetch0 fuel) l w1)
        as [[w2 out2]|] eqn:E2; try discriminate.
      injection H as <- <-.
      assert (G1 : requests w `prefix_of` requests w1)
        by (eapply getAll_log_grows; exact E).
      assert (G2 : requests w1 `prefix_of` requests w2)
        by (eapply getDependencies_log_grows; exact E2).
      rewrite (IH _ _ _ _ E); [|now transitivity (requests w2) | assumption].
      rewrite (IHl _ _ _ E2 Hp); [reflexivity|].
      now apply agree_later with (requests w).
    + injection H as <- <-. now rewrite (IH _ _ _ _ E Hp Ha).
Qed.

Lemma getAll_agree fuel : forall bugArray w w0 out0,
  getAll fetch0 fuel bugArray w = Some (w0, out0) ->
  requests w0 `prefix_of` h -> agree fetch0 fetch (requests w) h ->
  getAll fetch fuel bugArray w = Some (w0, out0).
Proof.
  induction fuel as [|fuel IH]; intros bugArray w w0 out0 H Hp Ha;
    destruct (array_concat bugArray) as [|n rest] eqn:E.
  - now rewrite getAll_empty in * by assumption.
  - rewrite getAll_out_of_fuel in H by congruence. discriminate.
  - now rewrite getAll_empty in * by assumption.
  - assert (G : requests w ++ [n :: rest] `prefix_of` requests w0).
    { rewrite getAll_step in H by congruence. rewrite E in H.
      destruct (fetch0 (requests w) (n :: rest)) as [dataList|e1].
      - destruct (forEach_purge _ _ _ _) as [infoArray cb].
        destruct (getDependencies _ _ _) as [[w2 out2]|] eqn:D;
          try discriminate.
        injection H as <- <-.
        apply (getDependencies_log_grows _ _ _ _ _ _ D).
      - now injection H as <- <-. }
    rewrite getAll_step in H |- * by congruence. rewrite E in H |- *.
    rewrite (Ha (requests w) (n :: rest)); [|reflexivity | now transitivity (requests w0)].
    destruct (fetch0 (requests w) (n :: rest)) as [dataList|e1]; [|exact H].
    destruct (forEach_purge _ _ _ _) as [infoArray cb].
    destruct (getDependencies (getAll fetch0 fuel) infoArray _)
      as [[w2 out2]|] eqn:D; try discriminate.
    injection H as <- <-.
    rewrite (getDependencies_agree fuel IH _ _ _ _ D Hp); [reflexivity|].
    apply agree_later with (requests w); [|assumption].
    now apply prefix_app_r.
Qed.

Hypothesis rejected : fetch h batch = RejectedWith e.

(** Where the call under [fetch0] went on to send [batch] after [h],
    the call under [fetch] ends, rejected. *)
Lemma getDependencies_inject fuel :
  (forall bugArray w w0 out0,
      getAll fetch0 fuel bugArray w = Some (w0, out0) ->
      requests w `prefix_of` h -> (h ++ [batch]) `prefix_of` requests w0 ->
      agree fetch0 fetch (requests w) h ->
      exists cb, getAll fetch fuel bugArray w
                 = Some (mkWorld cb (h ++ [batch]), RejectedWith e)) ->
  forall bugList w w0 out0,
    getDependencies (getAll fetch0 fuel) bugList w = Some (w0, out0) ->
    requests w `prefix_of` h -> (h ++ [batch]) `prefix_of` requests w0 ->
    agree fetch0 fetch (requests w) h ->
    exists cb, getDependencies (getAll fetch fuel) bugList w
               = Some (mkWorld cb (h ++ [batch]), RejectedWith e).
Proof.
  intros IH bugList. induction bugList as [|c l IHl];
    intros w w0 out0 H Hlo Hhi Ha.
  - rewrite getDependencies_nil in H. injection H as <- <-.
    exfalso. apply (prefix_snoc_not h batch). now transitivity (requests w).
  - rewrite getDependencies_cons in H.
    destruct (getAll fetch0 fuel (Array (depends_on c)) w)
      as [[w1 o1]|] eqn:E; [|discriminate].
    assert (Hcase : (h ++ [batch]) `prefix_of` requests w1 \/
                    (exists r, o1 = Fulfilled r) /\ requests w1 `prefix_of` h).
    { destruct o1 as [r|e1].
      - destruct (getDependencies (getAll fetch0 fuel) l w1)
          as [[w2 out2]|] eqn:E2; try discriminate.
        injection H as <- <-.
        pose proof (getDependencies_log_grows _ _ _ _ _ _ E2) as G2.
        destruct (prefix_weak_total _ _ _ G2 Hhi) as [Hp|Hp]; [|now left].
        apply prefix_snoc_inv in Hp as [Hp|Hp]; [|right; eauto].
        left. now rewrite Hp.
      - injection H as <- <-. now left. }
    destruct Hcase as [Hin|[[r ->] Hbefore]].
    + destruct (IH _ _ _ _ E Hlo Hin Ha) as [cb Hcb].
      exists cb. rewrite getDependencies_cons, Hcb. reflexivity.
    + destruct (getDependencies (getAll fetch0 fuel) l w1)
        as [[w2 out2]|] eqn:E2; try discriminate.
      injection H as <- <-.
      pose proof (getAll_log_grows _ _ _ _ _ _ E) as G1.
      destruct (IHl _ _ _ E2 Hbefore Hhi) as [cb Hcb].
      { now apply agree_later with (requests w). }
      exists cb. rewrite getDependencies_cons.
      rewrite (getAll_agree _ _ _ _ _ E Hbefore Ha), Hcb. reflexivity.
Qed.

Lemma getAll_inject fuel : forall bugArray w w0 out0,
  getAll fetch0 fuel bugArray w = Some (w0, out0) ->
  requests w `prefix_of` h -> (h ++ [batch]) `prefix_of` requests w0 ->
  agree fetch0 fetch (requests w) h ->
  exists cb, getAll fetch fuel bugArray w
             = Some (mkWorld cb (h ++ [batch]), RejectedWith e).
Proof.
  induction fuel as [|fuel IH]; intros bugArray w w0 out0 H Hlo Hhi Ha;
    destruct (array_concat bugArray) as [|n rest] eqn:E.
  - rewrite getAll_empty in H by assumption. injection H as <- <-.
    exfalso. apply (prefix_snoc_not h batch). now transitivity (requests w).
  - rewrite getAll_out_of_fuel in H by congruence. discriminate.
  - rewrite getAll_empty in H by assumption. injection H as <- <-.
    exfalso. apply (prefix_snoc_not h batch). now transitivity (requests w).
  - rewrite getAll_step in H |- * by congruence. rewrite E in H |- *.
    assert (G : requests w ++ [n :: rest] `prefix_of` requests w0).
    { destruct (fetch0 (requests w) (n :: rest)) as [dataList|e1].
      - destruct (forEach_purge _ _ _ _) as [infoArray cb].
        destruct (getDependencies _ _ _) as [[w2 out2]|] eqn:D;
          try discriminate.
        injection H as <- <-.
        apply (getDependencies_log_grows _ _ _ _ _ _ D).
      - now injection H as <- <-. }
    assert (Hcase : (requests w = h /\ n :: rest = batch) \/
                    requests w ++ [n :: rest] `prefix_of` h).
    { destruct (prefix_weak_total _ _ _ G Hhi) as [Hp|Hp].
      - apply prefix_snoc_inv in Hp as [Hp|Hp]; [|now right].
        left. now apply app_inj_tail in Hp.
      - left. apply prefix_length_eq in Hp.
        + apply app_inj_tail in Hp as [-> ->]. auto.
        + rewrite !length_app. simpl. apply prefix_length in Hlo. lia. }
    destruct Hcase as [[Hh Hb]|Hp].
    + (* this very request *)
      rewrite Hh, Hb, rejected. exists (checkedBugs w).
      unfold sent. now rewrite Hh.
    + (* a later one *)
      rewrite (Ha (requests w) (n :: rest)) by (reflexivity || assumption).
      destruct (fetch0 (requests w) (n :: rest)) as [dataList|e1].
      * destruct (forEach_purge _ _ _ _) as [infoArray cb].
        destruct (getDependencies (getAll fetch0 fuel) infoArray _)
          as [[w2 out2]|] eqn:D; try discriminate.
        injection H as <- <-.
        destruct (getDependencies_inject fuel IH _ _ _ _ D Hp Hhi)
          as [cb' Hcb].
        { apply agree_later with (requests w); [|assumption].
          now apply prefix_app_r. }
        exists cb'. now rewrite Hcb.
      * injection H as <- <-. simpl in Hhi.
        exfalso. apply (prefix_snoc_not h batch).
        now transitivity (requests w ++ [n :: rest]).
Qed.

End Injection.

(** C7. A request that the tracker rejects ends the call of [getAll]:
    the call is rejected with that very reason and carries no list, not
    even a partial one, and the rejected request is the last one sent.
    This holds of the first request, and of any later one: take any call
    that settles under a tracker [fetch0] and any request [batch] it sends,
    after the requests [h]; under a tracker [fetch] that answers the
    requests before it as [fetch0] does and rejects [batch] with [e], the
    same call settles, rejected with [e], with the log [h ++ [batch]].
    And a call that settles after one of its requests was rejected is
    rejected with that reason, the request being its last. *)
Theorem getAll_fails_fast (fetch : Fetch) (fuel : nat) (bugArray : BugArg)
    (w : World) (e : Reason) :
  (array_concat bugArray <> [] ->
   fetch (requests w) (array_concat bugArray) = RejectedWith e ->
   getAll fetch (S fuel) bugArray w
     = Some (sent w (checkedBugs w) (array_concat bugArray), RejectedWith e)) /\
  (forall (fetch0 : Fetch) (w0 : World) (out0 : Settled (list Z))
          (h : list (list Z)) (batch : list Z),
      getAll fetch0 fuel bugArray w = Some (w0, out0) ->
      requests w `prefix_of` h ->
      (h ++ [batch]) `prefix_of` requests w0 ->
      agree fetch0 fetch (requests w) h ->
      fetch h batch = RejectedWith e ->
      exists cb,
        getAll fetch fuel bugArray w
          = Some (mkWorld cb (h ++ [batch]), RejectedWith e)) /\
  (forall (w' : World) (out : Settled (list Z)) (i : nat) (batch : list Z),
      getAll fetch fuel bugArray w = Some (w', out) ->
      (length (requests w) <= i)%nat ->
      requests w' !! i = Some batch ->
      fetch (take i (requests w')) batch = RejectedWith e ->
      out = RejectedWith e /\ requests w' = take i (requests w') ++ [batch]).
Proof.
  refine (conj _ (conj _ _)).
  - intros Hne F. rewrite getAll_step by assumption. now rewrite F.
  - intros fetch0 w0 out0 h batch H Hlo Hhi Ha F.
    exact (getAll_inject fetch0 fetch h batch e F fuel bugArray w w0 out0
             H Hlo Hhi Ha).
  - intros w' out i batch H Hi Hb F.
    pose proof (getAll_log_grows _ _ _ _ _ _ H) as G.
    assert (Hhi : take i (requests w') ++ [batch] `prefix_of` requests w').
    { exists (drop (S i) (requests w')). rewrite <- app_assoc. simpl.
      now rewrite take_drop_middle. }
    assert (Hlo : requests w `prefix_of` take i (requests w')).
    { destruct G as [k E]. rewrite E. rewrite take_app_ge by assumption.
      now apply prefix_app_r. }
    destruct (getAll_inject fetch fetch (take i (requests w')) batch e F
                fuel bugArray w w' out H Hlo Hhi) as [cb Hcb].
    { now intros history b _ _. }
    rewrite H in Hcb. injection Hcb as Hw Ho. split; [exact Ho|].
    rewrite Hw at 1. reflexivity.
Qed.

(** The tracker [flaky] answers the first request of the chain as
    [serve g_chain] does. *)
Lemma flaky_agrees : agree (serve g_chain) flaky [] [[5000]].
Proof.
  intros history batch _ [k E]. destruct history as [|x hs].
  - injection E as <- _. reflexivity.
  - injection E as _ E. now destruct hs.
Qed.

Lemma getAll_fails_fast_witness :
  (array_concat (Single 5001) <> [] /\
   flaky [] [5001] = RejectedWith (NetworkError "offline") /\
   getAll flaky 1 (Single 5001) fresh
     = Some (mkWorld ∅ [[5001]], RejectedWith (NetworkError "offline"))) /\
  (getAll (serve g_chain) 2 (Single 5000) fresh
     = Some (mkWorld (<[5001 := true]> (<[5000 := true]> ∅)) [[5000]; [5001]],
             Fulfilled [5000; 5001]) /\
   flaky [[5000]] [5001] = RejectedWith (NetworkError "offline") /\
   exists cb,
     getAll flaky 2 (Single 5000) fresh
       = Some (mkWorld cb ([[5000]] ++ [[5001]]),
               RejectedWith (NetworkError "offline"))) /\
  (getAll flaky 2 (Single 5000) fresh
     = Some (mkWorld (<[5000 := true]> ∅) [[5000]; [5001]],
             RejectedWith (NetworkError "offline")) /\
   (length (requests fresh) <= 1)%nat /\
   [[5000]; [5001]] !! 1%nat = Some [5001] /\
   flaky (take 1 [[5000]; [5001]]) [5001]
     = RejectedWith (NetworkError "offline") /\
   (RejectedWith (NetworkError "offline") : Settled (list Z))
     = RejectedWith (NetworkError "offline") /\
   [[5000]; [5001]] = take 1 [[5000]; [5001]] ++ [[5001]]).
Proof.
  assert (Hne : array_concat (Single 5001) <> []) by discriminate.
  assert (H : getAll (serve g_chain) 2 (Single 5000) fresh
     = Some (mkWorld (<[5001 := true]> (<[5000 := true]> ∅)) [[5000]; [5001]],
             Fulfilled [5000; 5001]))
    by (vm_compute; reflexivity).
  assert (H' : getAll flaky 2 (Single 5000) fresh
     = Some (mkWorld (<[5000 := true]> ∅) [[5000]; [5001]],
             RejectedWith (NetworkError "offline")))
    by (vm_compute; reflexivity).
  assert (Hi : (length (requests fresh) <= 1)%nat) by (simpl; lia).
  refine (conj _ (conj _ _)).
  - split; [exact Hne|]. split; [reflexivity|].
    exact (proj1 (getAll_fails_fast flaky 0 (Single 5001) fresh
                    (NetworkError "offline")) Hne eq_refl).
  - split; [exact H|]. split; [reflexivity|].
    exact (proj1 (proj2 (getAll_fails_fast flaky 2 (Single 5000) fresh
                           (NetworkError "offline")))
             (serve g_chain) _ _ [[5000]] [5001] H
             (prefix_nil [[5000]]) (reflexivity _) flaky_agrees eq_refl).
  - split; [exact H'|]. split; [exact Hi|]. split; [reflexivity|].
    split; [reflexivity|].
    exact (proj2 (proj2 (getAll_fails_fast flaky 2 (Single 5000) fresh
                           (NetworkError "offline")))
             _ _ 1%nat [5001] H' Hi eq_refl eq_refl).
Defined.

(** ** Which requests are sent *)

Section Requests.

Variable fetch : Fetch.

Lemma nonempty_app l1 l2 : nonempty (l1 ++ l2) = nonempty l1 ++ nonempty l2.
Proof. apply filter_app. Qed.

Lemma nonempty_cons batch l :
  batch <> [] -> nonempty (batch :: l) = batch :: nonempty l.
Proof. intros H. unfold nonempty. now rewrite filter_cons_True. Qed.

Lemma requests_explained_seq first second w w1 w2 r rs :
  requests_explained first w w1 r ->
  requests_explained second w1 w2 rs ->
  requests_explained (first ++ second) w w2 (r ++ rs).
Proof.
  intros (s1 & new1 & -> & E1 & P1) (s2 & new2 & -> & E2 & P2).
  exists (s1 ++ s2), (new1 ++ new2).
  split; [now rewrite map_app|].
  split; [now rewrite E2, E1, app_assoc|].
  rewrite P1, P2, <- nonempty_app. unfold nonempty. apply filter_Permutation.
  rewrite map_app, !app_assoc. apply Permutation_app_tail.
  rewrite <- !app_assoc. apply Permutation_app_head, Permutation_app_comm.
Qed.

Lemma getAll_requests_explained fuel bugArray w w' res :
  getAll fetch fuel bugArray w = Some (w', Fulfilled res) ->
  requests_explained [array_concat bugArray] w w' res.
Proof.
  intros H.
  refine (getAll_run fetch
            (fun batch w w' out =>
               forall res, out = Fulfilled res ->
                           requests_explained [batch] w w' res)
            (fun bugList w w' out =>
               forall res, out = Fulfilled res ->
                           requests_explained (map depends_on bugList) w w' res)
            _ _ _ _ _ _ fuel bugArray w w' _ H res eq_refl); clear.
  - intros w res [= <-]. exists [], []. rewrite app_nil_r. now repeat split.
  - discriminate.
  - intros batch w dataList infoArray cb w' out Hne _ _ HQ res E.
    destruct out as [depends|e]; [|discriminate]. injection E as <-.
    destruct (HQ depends eq_refl) as (s2 & new2 & -> & E2 & P2).
    exists (infoArray ++ s2), (batch :: new2).
    split; [now rewrite map_app|].
    split; [rewrite E2; simpl; now rewrite <- app_assoc|].
    simpl. rewrite nonempty_cons by assumption. constructor.
    now rewrite P2, map_app.
  - intros w res [= <-]. exists [], []. rewrite app_nil_r. now repeat split.
  - discriminate.
  - intros c bugList w w1 r w2 out HP HQ res E.
    destruct out as [rs|e]; [|discriminate]. injection E as <-.
    apply (requests_explained_seq [depends_on c] (map depends_on bugList)
             w w1 w2); auto.
Qed.

Lemma request_count_nonempty n l :
  request_count n (nonempty l) = request_count n l.
Proof.
  unfold request_count, nonempty. induction l as [|batch l IH]; [reflexivity|].
  rewrite !filter_cons. destruct (decide (batch ≠ [])) as [Hne|He].
  - rewrite filter_cons. destruct (decide (n ∈ batch)); simpl; now rewrite IH.
  - destruct (decide (n ∈ batch)) as [Hin|]; [|assumption].
    exfalso. apply He. intros ->. now apply elem_of_nil in Hin.
Qed.

End Requests.

(** The diamond: bug 2001 is named by 1001 and by 1002 and is included in
    two requests. *)
Lemma getAll_requests_diamond_twice :
  exists w res,
    getAll (serve g_diamond) 3 (Array [1001; 1002]) fresh
      = Some (w, Fulfilled res) /\
    requests w = [[1001; 1002]; [2001]; [2001; 2002]] /\
    ~ (request_count 2001 (requests w) <= 1)%nat.
Proof.
  eexists _, _. split; [vm_compute; reflexivity|].
  split; [reflexivity|]. vm_compute. lia.
Qed.

(** ** [getAll2] is [getAll] *)

(** The traversal of getAll.js is, line for line, the one of
    everything.js, and the two embeddings are the same function: what is
    shown of [getAll] holds of [getAll2]. *)
Lemma getAll2_is_getAll (fetch : Fetch) (fuel : nat) (bugArray : BugArg)
    (w : World) :
  GetAllJs.getAll2 fetch fuel bugArray w = getAll fetch fuel bugArray w.
Proof. reflexivity. Qed.

(** ** Summaries play no part *)

Section Summaries.

Variables fetch1 fetch2 : Fetch.

Hypothesis same : forall history batch,
  same_ids_and_dependencies (fetch1 history batch) (fetch2 history batch).

Lemma forEach_purge_key count : forall position xs ys cb,
  map key xs = map key ys ->
  snd (forEach_purge count position xs cb)
    = snd (forEach_purge count position ys cb) /\
  map key (fst (forEach_purge count position xs cb))
    = map key (fst (forEach_purge count position ys cb)).
Proof.
  induction count as [|count IH]; intros position xs ys cb E; simpl.
  - split; [reflexivity | assumption].
  - assert (L : key <$> xs !! position = key <$> ys !! position).
    { rewrite <- !list_lookup_fmap. unfold fmap, list_fmap.
      fold (map key xs). fold (map key ys). now rewrite E. }
    destruct (xs !! position) as [x|], (ys !! position) as [y|];
      try discriminate; [|now apply IH].
    injection L as Hid Hdeps. simpl in Hid. rewrite <- Hid.
    destruct (isChecked cb (id x)); apply IH; [|assumption].
    change (map key (delete position xs)) with (key <$> delete position xs).
    change (map key (delete position ys)) with (key <$> delete position ys).
    rewrite !list_fmap_delete. f_equal. exact E.
Qed.

Lemma getDependencies_key rec1 rec2 :
  (forall bugArray w, rec1 bugArray w = rec2 bugArray w) ->
  forall xs ys w, map key xs = map key ys ->
    getDependencies rec1 xs w = getDependencies rec2 ys w.
Proof.
  intros H xs. induction xs as [|x xs IH]; intros [|y ys] w E;
    try discriminate; [reflexivity|].
  injection E as Hid Hdeps E. rewrite !getDependencies_cons, H, <- Hdeps.
  destruct (rec2 (Array (depends_on x)) w) as [[w1 [r|e]]|]; try reflexivity.
  now rewrite (IH ys w1 E).
Qed.

Lemma getAll_same_keys fuel : forall bugArray w,
  getAll fetch1 fuel bugArray w = getAll fetch2 fuel bugArray w.
Proof.
  induction fuel as [|fuel IH]; intros bugArray w; [reflexivity|].
  destruct (array_concat bugArray) as [|n rest] eqn:E.
  - now rewrite !getAll_empty.
  - rewrite !getAll_step by congruence. rewrite E.
    pose proof (same (requests w) (n :: rest)) as S.
    destruct (fetch1 (requests w) (n :: rest)) as [xs|e1],
             (fetch2 (requests w) (n :: rest)) as [ys|e2];
      simpl in S; try contradiction; [|now subst].
    assert (Hlen : length xs = length ys).
    { rewrite <- (length_map key xs), <- (length_map key ys). now rewrite S. }
    rewrite Hlen.
    destruct (forEach_purge_key (length ys) 0 xs ys (checkedBugs w) S)
      as [Hcb Hkeys].
    destruct (forEach_purge (length ys) 0 xs (checkedBugs w)) as [L1 cb1].
    destruct (forEach_purge (length ys) 0 ys (checkedBugs w)) as [L2 cb2].
    simpl in Hcb, Hkeys. subst cb2.
    rewrite (getDependencies_key _ _ IH L1 L2 _ Hkeys).
    assert (Hids : map id L1 = map id L2).
    { transitivity (map fst (map key L1)); [now rewrite map_map|].
      rewrite Hkeys. now rewrite map_map. }
    now rewrite Hids.
Qed.

End Summaries.

Lemma with_summary_same (s : string) (fetch : Fetch) history batch :
  same_ids_and_dependencies (with_summary s fetch history batch)
                            (fetch history batch).
Proof.
  unfold with_summary, same_ids_and_dependencies.
  destruct (fetch history batch) as [dataList|e]; [|reflexivity].
  now rewrite map_map.
Qed.

(** With every summary marked as meta, the chain of section 8 still
    yields both bugs. *)
Example getAll_lists_meta_bugs :
  result_of (getAll (with_summary "[meta] Hello 1.2" (serve g_chain)) 2
               (Single 5000) fresh) = Some [5000; 5001].
Proof. vm_compute. reflexivity. Qed.

(** ** [checkedBugs] outlives the call *)

Lemma getAll_checked_mono (fetch : Fetch) fuel bugArray w w' out :
  getAll fetch fuel bugArray w = Some (w', out) ->
  forall n, isChecked (checkedBugs w) n = true ->
            isChecked (checkedBugs w') n = true.
Proof.
  intros H.
  refine (getAll_run fetch
            (fun _ w w' _ => forall n, isChecked (checkedBugs w) n = true ->
                                       isChecked (checkedBugs w') n = true)
            (fun _ w w' _ => forall n, isChecked (checkedBugs w) n = true ->
                                       isChecked (checkedBugs w') n = true)
            _ _ _ _ _ _ fuel bugArray w w' out H); clear; auto.
  intros batch w dataList infoArray cb w' out _ _ G HQ n Hn.
  apply HQ. simpl. now apply (forEach_purge_spec _ _ _ _ _ _ G).
Qed.

Lemma getDependencies_checked_mono (fetch : Fetch) fuel bugList w w' out :
  getDependencies (getAll fetch fuel) bugList w = Some (w', out) ->
  forall n, isChecked (checkedBugs w) n = true ->
            isChecked (checkedBugs w') n = true.
Proof.
  revert w w' out. induction bugList as [|c l IH]; intros w w' out H n Hn.
  - rewrite getDependencies_nil in H. now injection H as <- <-.
  - rewrite getDependencies_cons in H.
    destruct (getAll fetch fuel (Array (depends_on c)) w)
      as [[w1 [r|e]]|] eqn:E; try discriminate.
    + destruct (getDependencies (getAll fetch fuel) l w1)
        as [[w2 out2]|] eqn:E2; try discriminate.
      injection H as <- <-. apply (IH _ _ _ E2).
      now apply (getAll_checked_mono _ _ _ _ _ _ E).
    + injection H as <- <-. now apply (getAll_checked_mono _ _ _ _ _ _ E).
Qed.

(** On a fresh page the first call for bug 1 yields [[1]], the second
    call, with the same root, yields the empty list. *)
Lemma getAll_second_call_differs :
  exists w1 w2,
    getAll (serve g_one) 1 (Single 1) fresh = Some (w1, Fulfilled [1]) /\
    getAll (serve g_one) 1 (Single 1) w1 = Some (w2, Fulfilled []) /\
    [1] <> ([] : list Z).
Proof.
  eexists _, _. split; [vm_compute; reflexivity|].
  split; [vm_compute; reflexivity | discriminate].
Qed.

(** C3, as the code has it.  [checkedBugs] belongs to the page, not to
    the call: a call for a single root [r] that is not checked yet and
    that the tracker knows lists [r] first and leaves it checked, and any
    later call for [r] in the same page sends its request, drops the
    answer and is fulfilled with the empty list. *)
Theorem checkedBugs_outlive_the_call (fetch : Fetch) (fuel1 fuel2 : nat)
    (r : Z) (w w1 : World) (res1 : list Z) :
  (forall history, exists b, fetch history [r] = Fulfilled [b] /\ id b = r) ->
  isChecked (checkedBugs w) r = false ->
  getAll fetch fuel1 (Single r) w = Some (w1, Fulfilled res1) ->
  (exists rest, res1 = r :: rest) /\
  isChecked (checkedBugs w1) r = true /\
  getAll fetch (S fuel2) (Single r) w1
    = Some (sent w1 (checkedBugs w1) [r], Fulfilled []).
Proof.
  intros Hf Hr H.
  destruct fuel1 as [|fuel1]; [discriminate|].
  rewrite getAll_step in H by discriminate. simpl array_concat in H.
  destruct (Hf (requests w)) as (b & F & Hb). rewrite F in H.
  simpl in H. rewrite Hb, Hr in H.
  destruct (getDependencies _ _ _) as [[w2 [depends|e]]|] eqn:D;
    try discriminate.
  injection H as <- <-.
  assert (C : isChecked (checkedBugs w2) r = true).
  { apply (getDependencies_checked_mono _ _ _ _ _ _ D). simpl.
    apply isChecked_insert. now left. }
  split; [exists depends; simpl; now rewrite Hb|]. split; [exact C|].
  rewrite getAll_step by discriminate. simpl array_concat.
  destruct (Hf (requests w2)) as (b' & F' & Hb'). rewrite F'.
  simpl. rewrite Hb', C. reflexivity.
Qed.

Lemma checkedBugs_outlive_the_call_witness :
  (forall history, exists b, serve g_one history [1] = Fulfilled [b] /\ id b = 1) /\
  isChecked (checkedBugs fresh) 1 = false /\
  getAll (serve g_one) 1 (Single 1) fresh
    = Some (mkWorld (<[1 := true]> ∅) [[1]], Fulfilled [1]) /\
  (exists rest, [1] = 1 :: rest) /\
  isChecked (<[1 := true]> ∅) 1 = true /\
  getAll (serve g_one) 1 (Single 1) (mkWorld (<[1 := true]> ∅) [[1]])
    = Some (mkWorld (<[1 := true]> ∅) [[1]; [1]], Fulfilled []).
Proof.
  assert (Hf : forall history,
             exists b, serve g_one history [1] = Fulfilled [b] /\ id b = 1)
    by (intros history; eexists; split; reflexivity).
  assert (H : getAll (serve g_one) 1 (Single 1) fresh
              = Some (mkWorld (<[1 := true]> ∅) [[1]], Fulfilled [1]))
    by (vm_compute; reflexivity).
  split; [exact Hf|]. split; [reflexivity|]. split; [exact H|].
  exact (checkedBugs_outlive_the_call (serve g_one) 1 0 1 fresh _ _
           Hf eq_refl H).
Defined.

(** ** The order of the result *)

Lemma getDependencies_subtraversals (fetch : Fetch) fuel bugList :
  forall w w' depends,
    getDependencies (getAll fetch fuel) bugList w = Some (w', Fulfilled depends) ->
    exists subresults,
      subtraversals fetch fuel bugList w w' subresults /\
      depends = concat subresults.
Proof.
  induction bugList as [|c l IH]; intros w w' depends H.
  - rewrite getDependencies_nil in H. injection H as <- <-.
    exists []. split; [constructor | reflexivity].
  - rewrite getDependencies_cons in H.
    destruct (getAll fetch fuel (Array (depends_on c)) w)
      as [[w1 [r|e]]|] eqn:E; try discriminate.
    destruct (getDependencies (getAll fetch fuel) l w1)
      as [[w2 [rs|e]]|] eqn:E2; try discriminate.
    injection H as <- <-.
    destruct (IH _ _ _ E2) as (subs & Hs & ->).
    exists (r :: subs). split; [econstructor; eauto | reflexivity].
Qed.

(** The left branch of the tree is listed to its end (4, then 5) before
    the right branch (6); layer by layer 6 would come before 5, and four
    requests would do where the code sends five. *)
Lemma getAll_is_not_breadth_by_layer :
  exists w,
    getAll (serve g_tree) 4 (Single 1) fresh
      = Some (w, Fulfilled [1; 2; 3; 4; 5; 6]) /\
    requests w = [[1]; [2; 3]; [4]; [5]; [6]] /\
    spec_collect g_tree 4 [1] = [1; 2; 3; 4; 6; 5] /\
    [1; 2; 3; 4; 5; 6] <> [1; 2; 3; 4; 6; 5].
Proof.
  eexists. split; [vm_compute; reflexivity|].
  split; [reflexivity|]. split; [vm_compute; reflexivity | discriminate].
Qed.

(** C6, as the code has it.  The result of a call lists the records that
    came through the purge of its answer, in the order the purged answer
    has them, and then, for each of these records in turn, the whole
    result of the traversal of its dependency list, each traversal started
    where the one before ended: depth first by record, one request per
    non-empty dependency list.  For root 5000 depending on 5001, and 5001
    on nothing, two requests are sent, [[5000]] then [[5001]], and the
    result is [[5000; 5001]]. *)
Theorem getAll_order :
  (forall (fetch : Fetch) (fuel : nat) (bugArray : BugArg) (w w' : World)
          (res : list Z),
      array_concat bugArray <> [] ->
      getAll fetch (S fuel) bugArray w = Some (w', Fulfilled res) ->
      exists dataList infoArray cb subresults,
        fetch (requests w) (array_concat bugArray) = Fulfilled dataList /\
        forEach_purge (length dataList) 0 dataList (checkedBugs w)
          = (infoArray, cb) /\
        subtraversals fetch fuel infoArray
          (sent w cb (array_concat bugArray)) w' subresults /\
        res = map id infoArray ++ concat subresults) /\
  (forall fuel : nat,
      getAll (serve g_chain) (S (S fuel)) (Single 5000) fresh
        = Some (mkWorld (<[5001 := true]> (<[5000 := true]> ∅))
                        [[5000]; [5001]],
                Fulfilled [5000; 5001])).
Proof.
  split.
  - intros fetch fuel bugArray w w' res Hne H.
    rewrite getAll_step in H by assumption.
    destruct (fetch (requests w) (array_concat bugArray)) as [dataList|e];
      [|discriminate].
    destruct (forEach_purge _ _ _ _) as [infoArray cb] eqn:G.
    destruct (getDependencies _ _ _) as [[w2 [depends|e]]|] eqn:D;
      try discriminate.
    injection H as <- <-.
    destruct (getDependencies_subtraversals _ _ _ _ _ _ D) as (subs & Hs & ->).
    exists dataList, infoArray, cb, subs. auto.
  - intros fuel. destruct fuel; vm_compute; reflexivity.
Qed.

Lemma getAll_order_witness :
  array_concat (Single 5000) <> [] /\
  getAll (serve g_chain) 2 (Single 5000) fresh
    = Some (mkWorld (<[5001 := true]> (<[5000 := true]> ∅)) [[5000]; [5001]],
            Fulfilled [5000; 5001]) /\
  exists dataList infoArray cb subresults,
    serve g_chain [] [5000] = Fulfilled dataList /\
    forEach_purge (length dataList) 0 dataList ∅ = (infoArray, cb) /\
    subtraversals (serve g_chain) 1 infoArray (mkWorld cb [[5000]])
      (mkWorld (<[5001 := true]> (<[5000 := true]> ∅)) [[5000]; [5001]])
      subresults /\
    [5000; 5001] = map id infoArray ++ concat subresults.
Proof.
  assert (Hne : array_concat (Single 5000) <> []) by discriminate.
  split; [exact Hne|].
  split; [exact (proj2 getAll_order 0%nat)|].
  exact (proj1 getAll_order (serve g_chain) 1%nat (Single 5000) fresh _ _ Hne
           (proj2 getAll_order 0%nat)).
Defined.

(** ** The result is the dependency closure *)

Lemma serve_answers (g : gmap Z (list Z)) : answers_for g (serve g).
Proof.
  intros history batch. eexists. split; [reflexivity|]. split.
  - intros b Hb. apply list_elem_of_omap in Hb as (n & Hn & Hr).
    unfold record_of in Hr. destruct (g !! n) as [deps|] eqn:E; [|discriminate].
    injection Hr as <-. simpl. auto.
  - intros n Hn [deps E]. exists (mkBug n None EmptyString deps).
    split; [|reflexivity]. apply list_elem_of_omap. exists n.
    split; [assumption|]. unfold record_of. now rewrite E.
Qed.

Lemma reachable_through (g : gmap Z (list Z)) roots m deps n :
  reachable g roots m -> g !! m = Some deps ->
  reachable g deps n -> reachable g roots n.
Proof.
  intros Hm Em Hn. induction Hn as [n Hin Hk|n deps' d _ IH E Hd Hk].
  - now apply reach_dep with m deps.
  - now apply reach_dep with n deps'.
Qed.

Section Closure.

Variable g : gmap Z (list Z).
Variable fetch : Fetch.
Hypothesis fetch_answers : answers_for g fetch.

Lemma getAll_covers fuel bugArray w w' res :
  getAll fetch fuel bugArray w = Some (w', Fulfilled res) ->
  covers g (array_concat bugArray) w w' res.
Proof.
  intros H.
  refine (getAll_run fetch
            (fun batch w w' out =>
               forall res, out = Fulfilled res -> covers g batch w w' res)
            (fun bugList w w' out =>
               forall res, out = Fulfilled res -> covers_deps g bugList w w' res)
            _ _ _ _ _ _ fuel bugArray w w' _ H res eq_refl); clear - fetch_answers.
  - intros w res [= <-].
    refine (conj _ (conj _ (conj _ _)));
      [intros n Hn | intros n deps d Hn | auto | intros n Hn];
      now apply elem_of_nil in Hn.
  - discriminate.
  - intros batch w dataList infoArray cb w' out Hne F G HQ res E.
    destruct out as [depends|e]; [|discriminate]. injection E as <-.
    destruct (HQ depends eq_refl) as (Qa & Qb & Qc & Qd).
    destruct (fetch_answers (requests w) batch) as (dl & F' & Hin & Hall).
    rewrite F in F'. injection F' as <-.
    destruct (forEach_purge_spec _ _ _ _ _ _ G) as (_ & S2 & S3 & S4 & _).
    simpl in Qa, Qb, Qc.
    assert (back : forall d, d ∈ depends \/ isChecked cb d = true ->
              d ∈ map id infoArray ++ depends \/
              isChecked (checkedBugs w) d = true).
    { intros d [Hd|Hd]; [left; apply elem_of_app; auto|].
      destruct (S4 d Hd); [auto | left; apply elem_of_app; auto]. }
    refine (conj _ (conj _ (conj _ _))).
    + intros n Hn Hk. destruct (Hall n Hn Hk) as (b & Hb & <-).
      destruct (S3 b Hb); [left; apply elem_of_app; auto | auto].
    + intros n deps d Hn Eg Hd Hk. apply back.
      apply elem_of_app in Hn as [Hn|Hn]; [|eauto].
      apply list_elem_of_fmap in Hn as (c & -> & Hc).
      destruct (Hin c (S2 c Hc)) as [_ Ec]. rewrite Ec in Eg.
      injection Eg as <-. eauto.
    + intros n Hn. destruct (Qc n Hn) as [Hc|Hc].
      * destruct (back n (or_intror Hc)); auto.
      * right. apply elem_of_app. auto.
    + intros n Hn. apply elem_of_app in Hn as [Hn|Hn].
      * apply list_elem_of_fmap in Hn as (c & -> & Hc).
        destruct (Hin c (S2 c Hc)) as [Hb Ec]. apply reach_root; eauto.
      * destruct (Qd n Hn) as (c & Hc & Hr).
        destruct (Hin c (S2 c Hc)) as [Hb Ec].
        apply reachable_through with (id c) (depends_on c); auto.
        apply reach_root; eauto.
  - intros w res [= <-].
    refine (conj _ (conj _ (conj _ _)));
      [intros n d Hn | intros n deps d Hn | auto | intros n Hn];
      now apply elem_of_nil in Hn.
  - discriminate.
  - intros c bugList w w1 r w2 out HP HQ res E.
    destruct out as [rs|e]; [|discriminate]. injection E as <-.
    destruct (HP r eq_refl) as (Pa & Pb & Pc & Pd).
    destruct (HQ rs eq_refl) as (Qa & Qb & Qc & Qd).
    assert (back : forall d, d ∈ rs \/ isChecked (checkedBugs w1) d = true ->
              d ∈ r ++ rs \/ isChecked (checkedBugs w) d = true).
    { intros d [Hd|Hd]; [left; apply elem_of_app; auto|].
      destruct (Pc d Hd); [auto | left; apply elem_of_app; auto]. }
    assert (front : forall d, d ∈ r \/ isChecked (checkedBugs w) d = true ->
              d ∈ r ++ rs \/ isChecked (checkedBugs w) d = true).
    { intros d [Hd|Hd]; [left; apply elem_of_app; auto | auto]. }
    refine (conj _ (conj _ (conj _ _))).
    + intros c' d Hc Hd Hk. apply elem_of_cons in Hc as [->|Hc].
      * apply front. apply Pa; auto.
      * apply back. eauto.
    + intros n deps d Hn Eg Hd Hk. apply elem_of_app in Hn as [Hn|Hn].
      * apply front. eauto.
      * apply back. eauto.
    + intros n Hn. destruct (Qc n Hn) as [Hc|Hc].
      * destruct (Pc n Hc); [auto | right; apply elem_of_app; auto].
      * right. apply elem_of_app. auto.
    + intros n Hn. apply elem_of_app in Hn as [Hn|Hn].
      * exists c. split; [left | auto].
      * destruct (Qd n Hn) as (c' & Hc & Hr). exists c'.
        split; [now right | assumption].
Qed.

(** *** Graphs without cycles are traversed to the end *)

Variable rank : Z -> nat.
Hypothesis g_ranked : ranked g rank.

Lemma getDependencies_settles rec (bugList : list Bug) :
  (forall c w, c ∈ bugList ->
               exists w' r, rec (Array (depends_on c)) w = Some (w', Fulfilled r)) ->
  forall w, exists w' rs,
    getDependencies rec bugList w = Some (w', Fulfilled rs).
Proof.
  induction bugList as [|c l IH]; intros Hrec w.
  - eexists _, _. apply getDependencies_nil.
  - rewrite getDependencies_cons.
    destruct (Hrec c w) as (w1 & r & ->); [left|].
    destruct (IH (fun c' w' Hc => Hrec c' w' (list_elem_of_further _ _ _ Hc)) w1)
      as (w2 & rs & ->).
    eexists _, _. reflexivity.
Qed.

Lemma getAll_settles_ranked k : forall bugArray w,
  (forall n, n ∈ array_concat bugArray -> is_Some (g !! n) -> (rank n < k)%nat) ->
  exists w' res, getAll fetch (S k) bugArray w = Some (w', Fulfilled res).
Proof.
  induction k as [|k IH]; intros bugArray w Hk.
  - destruct (array_concat bugArray) as [|n rest] eqn:E.
    + eexists _, _. now apply getAll_empty.
    + rewrite getAll_step by congruence. rewrite E.
      destruct (fetch_answers (requests w) (n :: rest)) as (dl & -> & Hin & _).
      destruct (forEach_purge _ _ _ _) as [infoArray cb] eqn:G.
      destruct (forEach_purge_spec _ _ _ _ _ _ G) as (_ & S2 & _).
      destruct infoArray as [|c l].
      * eexists _, _. reflexivity.
      * destruct (Hin c (S2 c (list_elem_of_here _ _))) as [Hb Ec].
        specialize (Hk (id c) Hb (mk_is_Some _ _ Ec)). lia.
  - destruct (array_concat bugArray) as [|n rest] eqn:E.
    + eexists _, _. now apply getAll_empty.
    + rewrite getAll_step by congruence. rewrite E.
      destruct (fetch_answers (requests w) (n :: rest)) as (dl & -> & Hin & _).
      destruct (forEach_purge _ _ _ _) as [infoArray cb] eqn:G.
      destruct (forEach_purge_spec _ _ _ _ _ _ G) as (_ & S2 & _).
      destruct (getDependencies_settles (getAll fetch (S k)) infoArray)
        with (w := sent w cb (n :: rest)) as (w2 & rs & ->).
      * intros c w0 Hc. apply IH. simpl. intros d Hd Hkd.
        destruct (Hin c (S2 c Hc)) as [Hb Ec].
        specialize (Hk (id c) Hb (mk_is_Some _ _ Ec)).
        specialize (g_ranked (id c) (depends_on c) d Ec Hd Hkd). lia.
      * eexists _, _. reflexivity.
Qed.

End Closure.

(** *** The records behind the requests *)

Section Accounting.

Variable fetch : Fetch.

Lemma answered_during_wider w1 w1' w w' b :
  requests w `prefix_of` requests w1 ->
  requests w1' `prefix_of` requests w' ->
  answered_during fetch w1 w1' b -> answered_during fetch w w' b.
Proof.
  intros H1 H2 (history & batch & dataList & Ha & Hb & F & Hin).
  exists history, batch, dataList.
  split; [now transitivity (requests w1)|].
  split; [now transitivity (requests w1')|]. auto.
Qed.

Lemma requests_accounted_seq first second w w1 w2 r rs :
  requests_accounted fetch first w w1 r ->
  requests_accounted fetch second w1 w2 rs ->
  requests_accounted fetch (first ++ second) w w2 (r ++ rs).
Proof.
  intros (s1 & new1 & -> & E1 & A1 & P1) (s2 & new2 & -> & E2 & A2 & P2).
  exists (s1 ++ s2), (new1 ++ new2).
  split; [now rewrite map_app|].
  split; [now rewrite E2, E1, app_assoc|].
  split.
  - apply Forall_app. split.
    + eapply Forall_impl; [exact A1|]. intros b.
      apply answered_during_wider; [reflexivity|].
      rewrite E2. now apply prefix_app_r.
    + eapply Forall_impl; [exact A2|]. intros b.
      apply answered_during_wider; [|reflexivity].
      rewrite E1. now apply prefix_app_r.
  - rewrite P1, P2, <- nonempty_app. unfold nonempty. apply filter_Permutation.
    rewrite map_app, !app_assoc. apply Permutation_app_tail.
    rewrite <- !app_assoc. apply Permutation_app_head, Permutation_app_comm.
Qed.

Lemma getAll_requests_accounted fuel bugArray w w' res :
  getAll fetch fuel bugArray w = Some (w', Fulfilled res) ->
  requests_accounted fetch [array_concat bugArray] w w' res.
Proof.
  intros H.
  refine (getAll_run fetch
            (fun batch w w' out =>
               forall res, out = Fulfilled res ->
                           requests_accounted fetch [batch] w w' res)
            (fun bugList w w' out =>
               forall res, out = Fulfilled res ->
                           requests_accounted fetch (map depends_on bugList)
                             w w' res)
            _ _ _ _ _ _ fuel bugArray w w' _ H res eq_refl); clear.
  - intros w res [= <-]. exists [], []. rewrite app_nil_r.
    split; [reflexivity|]. split; [reflexivity|]. split; [constructor|].
    reflexivity.
  - discriminate.
  - intros batch w dataList infoArray cb w' out Hne F G HQ res E.
    destruct out as [depends|e]; [|discriminate]. injection E as <-.
    destruct (HQ depends eq_refl) as (s2 & new2 & -> & E2 & A2 & P2).
    simpl in E2.
    destruct (forEach_purge_spec _ _ _ _ _ _ G) as (_ & S2 & _).
    exists (infoArray ++ s2), (batch :: new2).
    split; [now rewrite map_app|].
    split; [rewrite E2; now rewrite <- app_assoc|].
    split.
    + apply Forall_app. split.
      * apply Forall_forall. intros b Hb.
        exists (requests w), batch, dataList.
        split; [reflexivity|].
        split; [rewrite E2; now apply prefix_app_r|]. auto.
      * eapply Forall_impl; [exact A2|]. intros b.
        apply answered_during_wider; [|reflexivity].
        simpl. now apply prefix_app_r.
    + simpl. rewrite nonempty_cons by assumption. constructor.
      now rewrite P2, map_app.
  - intros w res [= <-]. exists [], []. rewrite app_nil_r.
    split; [reflexivity|]. split; [reflexivity|]. split; [constructor|].
    reflexivity.
  - discriminate.
  - intros c bugList w w1 r w2 out HP HQ res E.
    destruct out as [rs|e]; [|discriminate]. injection E as <-.
    apply (requests_accounted_seq [depends_on c] (map depends_on bugList)
             w w1 w2); auto.
Qed.

(** A record of an answer has the dependency list of the graph the
    tracker answers for. *)
Lemma answered_during_deps g w w' b :
  answers_for g fetch -> answered_during fetch w w' b ->
  id b ∈ dom g /\ depends_on b = deps_of g (id b).
Proof.
  intros Hf (history & batch & dataList & _ & _ & F & Hin).
  destruct (Hf history batch) as (dl & F' & Hk & _).
  rewrite F in F'. injection F' as <-.
  destruct (Hk b Hin) as [_ E]. unfold deps_of. rewrite E.
  split; [|reflexivity]. apply elem_of_dom. eauto.
Qed.

Lemma answered_deps_of g w w' survivors :
  answers_for g fetch -> Forall (answered_during fetch w w') survivors ->
  map depends_on survivors = map (deps_of g) (map id survivors).
Proof.
  intros Hf H. induction H as [|b l Hb _ IH]; [reflexivity|].
  simpl. rewrite IH.
  now destruct (answered_during_deps g w w' b Hf Hb) as [_ ->].
Qed.

End Accounting.

(** C1, as the code has it.  A fulfilled call of [getAll] (and [getAll2]
    makes the same call) lists the identifiers of records that the tracker
    gave in its answers during the call, one record per entry of the
    result, and the requests it sends are one for its non-empty argument
    and one for the non-empty dependency list of each of these records,
    each carrying the whole list, checked identifiers included.  Against a
    tracker that answers for a graph [g] the requests are therefore the
    roots and the dependency lists [g] has for the entries of the result,
    and an identifier is included in as many requests as there are entries
    of the result whose dependency list names it, plus one if it is among
    the roots. *)
Theorem getAll_requests (fetch : Fetch) (fuel : nat) (bugArray : BugArg)
    (w w' : World) (res : list Z) :
  getAll fetch fuel bugArray w = Some (w', Fulfilled res) ->
  GetAllJs.getAll2 fetch fuel bugArray w = Some (w', Fulfilled res) /\
  exists survivors new,
    res = map id survivors /\
    Forall (answered_during fetch w w') survivors /\
    requests w' = requests w ++ new /\
    new ≡ₚ nonempty (array_concat bugArray :: map depends_on survivors) /\
    (forall n, request_count n new
               = request_count n
                   (array_concat bugArray :: map depends_on survivors)) /\
    (forall g, answers_for g fetch ->
       new ≡ₚ nonempty (array_concat bugArray :: map (deps_of g) res) /\
       forall n, request_count n new
                 = request_count n
                     (array_concat bugArray :: map (deps_of g) res)).
Proof.
  intros H. split; [now rewrite getAll2_is_getAll|].
  apply getAll_requests_accounted in H as (s & new & E & R & A & P).
  assert (C : forall n, request_count n new
                = request_count n (array_concat bugArray :: map depends_on s)).
  { intros n. rewrite <- (request_count_nonempty n (_ :: _)).
    unfold request_count. now rewrite P. }
  exists s, new. do 5 (split; [assumption|]).
  intros g Hf. rewrite E, <- (answered_deps_of fetch g w w' s Hf A). auto.
Qed.

Lemma getAll_requests_witness :
  getAll (serve g_diamond) 3 (Array [1001; 1002]) fresh
    = Some (mkWorld (<[2001 := true]> (<[1002 := true]> (<[1001 := true]> ∅)))
                    [[1001; 1002]; [2001]; [2001; 2002]],
            Fulfilled [1001; 1002; 2001; 2002]) /\
  answers_for g_diamond (serve g_diamond) /\
  exists new,
    [[1001; 1002]; [2001]; [2001; 2002]] = [] ++ new /\
    new ≡ₚ nonempty ([1001; 1002]
                      :: map (deps_of g_diamond) [1001; 1002; 2001; 2002]) /\
    request_count 2001 new
      = request_count 2001
          ([1001; 1002] :: map (deps_of g_diamond) [1001; 1002; 2001; 2002]) /\
    request_count 2001 new = 2%nat.
Proof.
  assert (H : getAll (serve g_diamond) 3 (Array [1001; 1002]) fresh
    = Some (mkWorld (<[2001 := true]> (<[1002 := true]> (<[1001 := true]> ∅)))
                    [[1001; 1002]; [2001]; [2001; 2002]],
            Fulfilled [1001; 1002; 2001; 2002]))
    by (vm_compute; reflexivity).
  split; [exact H|]. split; [exact (serve_answers g_diamond)|].
  destruct (getAll_requests (serve g_diamond) 3 (Array [1001; 1002]) fresh _ _ H)
    as (_ & survivors & new & _ & _ & R & _ & _ & Hg).
  destruct (Hg g_diamond (serve_answers g_diamond)) as [P C].
  exists new. split; [exact R|]. split; [exact P|].
  split; [exact (C 2001) | exact (eq_trans (C 2001) eq_refl)].
Defined.

(** *** The result of a settled call *)

(** A tracker that answers never makes a call fail. *)
Lemma getAll_answered_is_fulfilled (g : gmap Z (list Z)) (fetch : Fetch)
    fuel bugArray w w' out :
  answers_for g fetch ->
  getAll fetch fuel bugArray w = Some (w', out) ->
  exists res, out = Fulfilled res.
Proof.
  intros Hf H. destruct out as [res|e]; [now exists res|].
  apply getAll_fail_fast_trace in H as (new & _ & earlier & last & _ & _ & F).
  destruct (Hf (requests w ++ earlier) last) as (dl & F' & _). congruence.
Qed.

Lemma getAll_closure (g : gmap Z (list Z)) (fetch : Fetch) fuel bugArray w' res :
  answers_for g fetch ->
  getAll fetch fuel bugArray fresh = Some (w', Fulfilled res) ->
  forall n, n ∈ res <-> reachable g (array_concat bugArray) n.
Proof.
  intros Hf H n.
  destruct (getAll_covers g fetch Hf _ _ _ _ _ H) as (Ha & Hb & _ & Hd).
  split; [apply Hd|].
  intros Hr. induction Hr as [n Hin Hk|m deps d _ IH E Hd' Hk].
  - destruct (Ha n Hin Hk) as [?|C]; [assumption|].
    simpl in C. now rewrite isChecked_empty in C.
  - destruct (Hb m deps d IH E Hd' Hk) as [?|C]; [assumption|].
    simpl in C. now rewrite isChecked_empty in C.
Qed.

Lemma getAll_settles_acyclic (g : gmap Z (list Z)) (fetch : Fetch)
    (rank : Z -> nat) bugArray w :
  answers_for g fetch -> ranked g rank ->
  exists fuel w' res, getAll fetch fuel bugArray w = Some (w', Fulfilled res).
Proof.
  intros Hf Hr.
  exists (S (S (max_list (map rank (array_concat bugArray))))).
  apply (getAll_settles_ranked g fetch Hf rank Hr).
  intros n Hn _. apply Nat.lt_succ_r, max_list_elem_of_le.
  apply list_elem_of_fmap. now exists n.
Qed.

(** *** Graphs in single file are traversed to the end, cycles or not *)

Lemma forEach_purge_one (b : Bug) (cb : gmap Z bool) :
  forEach_purge 1 0 [b] cb
  = if isChecked cb (id b) then ([], cb) else ([b], <[id b := true]> cb).
Proof. simpl. now destruct (isChecked cb (id b)). Qed.

Lemma filter_shrinks {A} (P Q : A -> Prop) `{!forall x, Decision (P x)}
    `{!forall x, Decision (Q x)} (l : list A) (x : A) :
  (forall y, Q y -> P y) -> x ∈ l -> P x -> ~ Q x ->
  (length (filter Q l) < length (filter P l))%nat.
Proof.
  intros HQP Hx HP HQ.
  assert (Hle : forall k : list A,
             (length (filter Q k) <= length (filter P k))%nat).
  { induction k as [|y k IH]; [reflexivity|]. rewrite !filter_cons.
    destruct (decide (Q y)) as [q|q], (decide (P y)) as [p|p]; simpl;
      [lia | now destruct p; apply HQP | lia | assumption]. }
  induction l as [|y l IH]; [now apply elem_of_nil in Hx|].
  rewrite !filter_cons. apply elem_of_cons in Hx as [<-|Hx].
  - destruct (decide (Q x)); [contradiction|].
    destruct (decide (P x)); [|contradiction]. simpl.
    specialize (Hle l). lia.
  - specialize (IH Hx).
    destruct (decide (Q y)) as [q|q], (decide (P y)) as [p|p]; simpl;
      [lia | now destruct p; apply HQP | lia | assumption].
Qed.

Lemma unchecked_shrinks (g : gmap Z (list Z)) (cb : gmap Z bool) n deps :
  g !! n = Some deps -> isChecked cb n = false ->
  (length (unchecked g (<[n := true]> cb)) < length (unchecked g cb))%nat.
Proof.
  intros E C. unfold unchecked. apply filter_shrinks with n.
  - intros m Hm. destruct (isChecked cb m) eqn:Cm; [|reflexivity].
    rewrite <- Hm. symmetry. apply isChecked_insert. now right.
  - apply list_elem_of_fmap. exists (n, deps). split; [reflexivity|].
    now apply elem_of_map_to_list.
  - assumption.
  - intros Hn. assert (isChecked (<[n := true]> cb) n = true) as Ht
      by (apply isChecked_insert; now left).
    congruence.
Qed.

Section SingleFile.

Variable g : gmap Z (list Z).
Variable fetch : Fetch.
Hypothesis fetch_answers : answers_for g fetch.
Hypothesis fetch_once : answers_once fetch.
Hypothesis g_single : single_file g.

Lemma getAll_settles_single_file k : forall bugArray w,
  (length (array_concat bugArray) <= 1)%nat ->
  (length (unchecked g (checkedBugs w)) <= k)%nat ->
  exists w' res, getAll fetch (S k) bugArray w = Some (w', Fulfilled res).
Proof.
  induction k as [|k IH]; intros bugArray w Hone Hk;
    (destruct (array_concat bugArray) as [|n rest] eqn:E;
     [eexists _, _; now apply getAll_empty|]);
    rewrite getAll_step by congruence; rewrite E;
    destruct (fetch_answers (requests w) (n :: rest)) as (dl & F & Hin & _);
    pose proof (fetch_once _ _ _ F) as Hlen; rewrite F;
    (destruct dl as [|b [|b' dl]];
     [eexists _, _; reflexivity | | simpl in Hone, Hlen; lia]);
    change (length [b]) with 1%nat; rewrite forEach_purge_one;
    destruct (isChecked (checkedBugs w) (id b)) eqn:C;
    try (eexists _, _; reflexivity);
    destruct (Hin b (list_elem_of_here _ _)) as [_ Eb];
    pose proof (unchecked_shrinks g _ _ _ Eb C) as Hs.
  - lia.
  - rewrite getDependencies_cons.
    destruct (IH (Array (depends_on b))
                (sent w (<[id b := true]> (checkedBugs w)) (n :: rest)))
      as (w1 & r & ->).
    + simpl. now apply (g_single (id b)).
    + simpl. lia.
    + eexists _, _. reflexivity.
Qed.

End SingleFile.

Lemma getAll_settles_in_single_file (g : gmap Z (list Z)) (fetch : Fetch)
    bugArray w :
  answers_for g fetch -> answers_once fetch -> single_file g ->
  (length (array_concat bugArray) <= 1)%nat ->
  exists fuel w' res, getAll fetch fuel bugArray w = Some (w', Fulfilled res).
Proof.
  intros Hf Ho Hs Hone. exists (S (length (unchecked g (checkedBugs w)))).
  now apply (getAll_settles_single_file g fetch Hf Ho Hs).
Qed.

(** *** The graphs of the examples *)

Lemma lookup_list_to_map_in (l : list (Z * list Z)) n deps :
  (list_to_map l : gmap Z (list Z)) !! n = Some deps -> (n, deps) ∈ l.
Proof. apply elem_of_list_to_map_2. Qed.

Lemma g_diamond_ranked : ranked g_diamond rank_diamond.
Proof.
  intros n deps d E Hd _. apply lookup_list_to_map_in in E.
  repeat (apply elem_of_cons in E as [E|E];
          [injection E as -> ->;
           repeat (apply elem_of_cons in Hd as [->|Hd]; [vm_compute; lia|]);
           now apply elem_of_nil in Hd|]).
  now apply elem_of_nil in E.
Qed.

Lemma g_chain_ranked : ranked g_chain rank_chain.
Proof.
  intros n deps d E Hd _. apply lookup_list_to_map_in in E.
  repeat (apply elem_of_cons in E as [E|E];
          [injection E as -> ->;
           repeat (apply elem_of_cons in Hd as [->|Hd]; [vm_compute; lia|]);
           now apply elem_of_nil in Hd|]).
  now apply elem_of_nil in E.
Qed.

Lemma g_two_single_file : single_file g_two.
Proof.
  intros n deps E. apply lookup_list_to_map_in in E.
  repeat (apply elem_of_cons in E as [E|E];
          [injection E as -> ->; simpl; lia|]).
  now apply elem_of_nil in E.
Qed.

Lemma serve_answers_once (g : gmap Z (list Z)) : answers_once (serve g).
Proof.
  intros history batch dataList [= <-].
  induction batch as [|n batch IH]; [reflexivity|].
  change (omap (record_of g) (n :: batch))
    with (match record_of g n with
          | Some b => b :: omap (record_of g) batch
          | None => omap (record_of g) batch
          end).
  destruct (record_of g n); simpl length; lia.
Qed.

(** Two calls whose result is not the set of identifiers the depends-on
    relation leads to.  Bug 1 depends on bug 2 and the tracker has no
    record of bug 2: bug 2 is requested and is not listed.  And on the
    graph of bugs 1, 2 and 3 every bug can be reached from bug 1, and the
    call for bug 1 has no result at all. *)
Lemma getAll_misses_the_closure :
  (answers_for g_dangling (serve g_dangling) /\
   named g_dangling [1] 2 /\
   exists w,
     getAll (serve g_dangling) 2 (Single 1) fresh = Some (w, Fulfilled [1]) /\
     requests w = [[1]; [2]] /\
     2 ∉ [1]) /\
  (answers_for g_cycle (serve g_cycle) /\
   reachable g_cycle [1] 1 /\ reachable g_cycle [1] 2 /\
   reachable g_cycle [1] 3 /\
   (forall fuel, getAll (serve g_cycle) fuel (Single 1) fresh = None) /\
   ~ (exists fuel w' res,
         getAll (serve g_cycle) fuel (Single 1) fresh
           = Some (w', Fulfilled res) /\
         forall n, n ∈ res <-> reachable g_cycle [1] n)).
Proof.
  split.
  { split; [exact (serve_answers g_dangling)|]. split.
    - apply (named_dep g_dangling [1] 1 [2] 2); [|reflexivity | left].
      apply named_root. left.
    - eexists. split; [vm_compute; reflexivity|]. split; [reflexivity|].
      intros H. apply elem_of_cons in H as [H|H]; [discriminate|].
      now apply elem_of_nil in H. }
  assert (R1 : reachable g_cycle [1] 1).
  { apply reach_root; [left | now exists [2; 3]]. }
  assert (Hnone : forall fuel,
             getAll (serve g_cycle) fuel (Single 1) fresh = None).
  { intros fuel. destruct fuel as [|fuel]; [reflexivity|].
    rewrite getAll_step by discriminate.
    change (serve g_cycle (requests fresh) (array_concat (Single 1)))
      with (Fulfilled [mkBug 1 None EmptyString [2; 3]]).
    cbv beta iota zeta.
    change (forEach_purge _ 0 _ (checkedBugs fresh))
      with ([mkBug 1 None EmptyString [2; 3]],
            <[1 := true]> (∅ : gmap Z bool)).
    cbv beta iota zeta. rewrite getDependencies_cons.
    change (depends_on (mkBug 1 None EmptyString [2; 3])) with [2; 3].
    destruct fuel as [|fuel]; [reflexivity|].
    rewrite getAll_step by discriminate.
    match goal with
    | |- context [serve g_cycle ?h (array_concat (Array [2; 3]))] =>
      change (serve g_cycle h (array_concat (Array [2; 3])))
        with (Fulfilled [mkBug 2 None EmptyString [];
                         mkBug 3 None EmptyString [2; 1]])
    end.
    cbv beta iota zeta.
    match goal with
    | |- context [forEach_purge ?n 0 ?l ?cb] =>
      change (forEach_purge n 0 l cb)
        with (l, <[3 := true]> (<[2 := true]> (<[1 := true]> (∅ : gmap Z bool))))
    end.
    cbv beta iota zeta. rewrite getDependencies_cons.
    rewrite getAll_empty by reflexivity.
    rewrite getDependencies_cons.
    change (depends_on (mkBug 3 None EmptyString [2; 1])) with [2; 1].
    match goal with
    | |- context [getAll (serve g_cycle) fuel (Array [2; 1]) ?w] =>
      now destruct (getAll_cycle_loop fuel w eq_refl) as [_ ->]
    end. }
  assert (R2 : reachable g_cycle [1] 2).
  { apply (reach_dep g_cycle [1] 1 [2; 3] 2 R1 eq_refl); [left|].
    now exists []. }
  assert (R3 : reachable g_cycle [1] 3).
  { apply (reach_dep g_cycle [1] 1 [2; 3] 3 R1 eq_refl); [right; left|].
    now exists [2; 1]. }
  split; [exact (serve_answers g_cycle)|].
  split; [exact R1|]. split; [exact R2|]. split; [exact R3|].
  split; [exact Hnone|].
  intros (fuel & w' & res & H & _). now rewrite Hnone in H.
Qed.

(** C5, as the code has it.  Against a tracker that answers for the
    graph [g], in any order, a call of [getAll] on a fresh page that
    settles is fulfilled, and its result lists exactly the bugs of [g]
    that can be reached from the roots through bugs of [g] along the
    depends-on relation: each of them, and nothing else.  The call does
    settle, with that result, when [g] has no cycle; and also, cycles or
    not, when no bug of [g] depends on more than one bug, the call has at
    most one root and the tracker answers with no more records than it is
    asked for. *)
Theorem getAll_result_is_the_closure (g : gmap Z (list Z)) (fetch : Fetch)
    (bugArray : BugArg) :
  answers_for g fetch ->
  (forall fuel w' out,
      getAll fetch fuel bugArray fresh = Some (w', out) ->
      exists res,
        out = Fulfilled res /\
        forall n, n ∈ res <-> reachable g (array_concat bugArray) n) /\
  (forall rank, ranked g rank ->
      exists fuel w' res,
        getAll fetch fuel bugArray fresh = Some (w', Fulfilled res) /\
        forall n, n ∈ res <-> reachable g (array_concat bugArray) n) /\
  (single_file g -> answers_once fetch ->
   (length (array_concat bugArray) <= 1)%nat ->
      exists fuel w' res,
        getAll fetch fuel bugArray fresh = Some (w', Fulfilled res) /\
        forall n, n ∈ res <-> reachable g (array_concat bugArray) n).
Proof.
  intros Hf. refine (conj _ (conj _ _)).
  - intros fuel w' out H.
    destruct (getAll_answered_is_fulfilled g fetch _ _ _ _ _ Hf H) as [res ->].
    exists res. split; [reflexivity|]. now apply getAll_closure with fetch fuel w'.
  - intros rank Hr.
    destruct (getAll_settles_acyclic g fetch rank bugArray fresh Hf Hr)
      as (fuel & w' & res & H).
    exists fuel, w', res. split; [exact H|].
    now apply getAll_closure with fetch fuel w'.
  - intros Hs Ho Hone.
    destruct (getAll_settles_in_single_file g fetch bugArray fresh Hf Ho Hs Hone)
      as (fuel & w' & res & H).
    exists fuel, w', res. split; [exact H|].
    now apply getAll_closure with fetch fuel w'.
Qed.

Lemma getAll_result_is_the_closure_witness :
  (answers_for g_diamond (serve g_diamond) /\
   ranked g_diamond rank_diamond /\
   exists fuel w' res,
     getAll (serve g_diamond) fuel (Array [1001; 1002]) fresh
       = Some (w', Fulfilled res) /\
     forall n, n ∈ res <-> reachable g_diamond [1001; 1002] n) /\
  (answers_for g_two (serve g_two) /\
   single_file g_two /\ answers_once (serve g_two) /\
   (length (array_concat (Single 1)) <= 1)%nat /\
   exists fuel w' res,
     getAll (serve g_two) fuel (Single 1) fresh = Some (w', Fulfilled res) /\
     forall n, n ∈ res <-> reachable g_two [1] n).
Proof.
  assert (Hone : (length (array_concat (Single 1)) <= 1)%nat) by (simpl; lia).
  split.
  - split; [exact (serve_answers g_diamond)|].
    split; [exact g_diamond_ranked|].
    exact (proj1 (proj2 (getAll_result_is_the_closure g_diamond
                           (serve g_diamond) (Array [1001; 1002])
                           (serve_answers g_diamond)))
             rank_diamond g_diamond_ranked).
  - split; [exact (serve_answers g_two)|].
    split; [exact g_two_single_file|].
    split; [exact (serve_answers_once g_two)|]. split; [exact Hone|].
    exact (proj2 (proj2 (getAll_result_is_the_closure g_two (serve g_two)
                           (Single 1) (serve_answers g_two)))
             g_two_single_file (serve_answers_once g_two) Hone).
Defined.

(** ** Meta bugs are traversed like any other bug *)

Lemma reachable_known (g : gmap Z (list Z)) roots n :
  reachable g roots n -> is_Some (g !! n).
Proof. now intros [m _ Hk|m deps d _ _ _ Hk]. Qed.

Lemma with_summary_answers (s : string) (g : gmap Z (list Z)) (fetch : Fetch) :
  answers_for g fetch -> answers_for g (with_summary s fetch).
Proof.
  intros Hf history batch. destruct (Hf history batch) as (dl & F & Hin & Hall).
  exists (map (fun b => mkBug (id b) (Some s) (resolution b) (depends_on b)) dl).
  unfold with_summary. rewrite F. split; [reflexivity|]. split.
  - intros b Hb. apply list_elem_of_fmap in Hb as (b0 & -> & Hb0).
    simpl. now apply Hin.
  - intros n Hn Hk. destruct (Hall n Hn Hk) as (b & Hb & <-).
    exists (mkBug (id b) (Some s) (resolution b) (depends_on b)).
    split; [|reflexivity].
    apply list_elem_of_fmap. exists b. split; [reflexivity | assumption].
Qed.

Lemma with_summary_marks_meta (fetch : Fetch) (n : Z) :
  tracker_marks_meta (with_summary "[meta] Hello 1.2" fetch) n.
Proof.
  intros history batch dataList b F Hb _. unfold with_summary in F.
  destruct (fetch history batch) as [dl|e]; [|discriminate]. injection F as <-.
  apply list_elem_of_fmap in Hb as (b0 & -> & _). reflexivity.
Qed.

Lemma getAll_fetched_followed_listed (g : gmap Z (list Z)) (fetch : Fetch)
    fuel bugArray n w' res :
  answers_for g fetch -> tracker_marks_meta fetch n ->
  reachable g (array_concat bugArray) n ->
  getAll fetch fuel bugArray fresh = Some (w', Fulfilled res) ->
  fetched_followed_listed g fetch n w' res.
Proof.
  intros Hf Hm Hr H.
  pose proof (getAll_closure g fetch fuel bugArray w' res Hf H) as Hc.
  assert (Hn : n ∈ res) by now apply Hc.
  destruct (getAll_requests_accounted fetch _ _ _ _ _ H)
    as (s & new & E & R & A & P).
  simpl in R. subst new.
  pose proof Hn as Hn'. rewrite E in Hn'.
  apply list_elem_of_fmap in Hn' as (b & Hid & Hb).
  rewrite Forall_forall in A. pose proof (A b Hb) as Ab.
  destruct (answered_during_deps fetch g _ _ b Hf Ab) as [_ Ed].
  rewrite <- Hid in Ed.
  refine (conj _ (conj Hn (conj _ _))).
  - destruct Ab as (history & batch & dataList & Hlo & Hhi & F & Hin).
    exists batch, b.
    split.
    { destruct Hhi as [k ->]. rewrite <- app_assoc.
      apply elem_of_app. right. now left. }
    split.
    { destruct (Hf history batch) as (dl & F' & Hk & _).
      rewrite F in F'. injection F' as <-. rewrite Hid.
      now apply Hk. }
    split; [now exists history, batch, dataList|].
    split; [now symmetry|]. now apply (Hm history batch dataList).
  - intros Hne. rewrite P. unfold nonempty. apply list_elem_of_filter.
    split; [assumption|]. right. rewrite <- Ed.
    apply list_elem_of_fmap. now exists b.
  - intros d Hd Hk. apply Hc.
    destruct (reachable_known _ _ _ Hr) as [deps Eg].
    apply reach_dep with n deps; auto.
    unfold deps_of in Hd. now rewrite Eg in Hd.
Qed.



(** ** The single-bug [getAll] of getAll.js *)

(** The one variant that tests [isMeta] before it pushes never gets that
    far: called with a number, it is fulfilled with the empty list when
    the bug is checked already and is rejected otherwise.  It lists no
    bug, meta or not. *)
Lemma getAll_single_lists_nothing (fetch : Fetch) (fuel : nat) (bugNumber : Z)
    (w w' : World) (out : Settled (list GetAllJs.JsObject)) :
  GetAllJs.getAll fetch fuel bugNumber w = Some (w', out) ->
  out = Fulfilled [] \/ exists e, out = RejectedWith e.
Proof.
  intros H. destruct fuel as [|fuel]; simpl in H;
    destruct (isChecked (checkedBugs w) bugNumber);
    try discriminate; try (injection H as <- <-; now left).
  unfold then_, GetAllJs.getBug in H.
  destruct (fetch (requests w) [bugNumber]); injection H as <- <-; eauto.
Qed.


(** * Further properties of the code *)

(** ** What a traversal leaves behind *)

(** X1. A call of [getAll], however it settles, never unchecks a bug: what
    [checkedBugs] held before the call it holds after it. *)
Theorem getAll_never_unchecks (fetch : Fetch) (fuel : nat) (bugArray : BugArg)
    (w w' : World) (out : Settled (list Z)) (n : Z) :
  getAll fetch fuel bugArray w = Some (w', out) ->
  isChecked (checkedBugs w) n = true ->
  isChecked (checkedBugs w') n = true.
Proof. intros H. now apply (getAll_checked_mono fetch fuel bugArray w w' out). Qed.

Lemma getAll_never_unchecks_witness :
  getAll (serve g_one) 1 (Single 1) (mkWorld (<[7 := true]> ∅) [])
    = Some (mkWorld (<[1 := true]> (<[7 := true]> ∅)) [[1]], Fulfilled [1]) /\
  isChecked (<[7 := true]> ∅) 7 = true /\
  isChecked (<[1 := true]> (<[7 := true]> ∅)) 7 = true.
Proof.
  assert (H : getAll (serve g_one) 1 (Single 1) (mkWorld (<[7 := true]> ∅) [])
    = Some (mkWorld (<[1 := true]> (<[7 := true]> ∅)) [[1]], Fulfilled [1]))
    by (vm_compute; reflexivity).
  split; [exact H|]. split; [reflexivity|].
  exact (getAll_never_unchecks (serve g_one) 1 (Single 1) _ _ _ 7 H eq_refl).
Defined.

Lemma getAll_newly_checked (fetch : Fetch) fuel bugArray w w' res :
  getAll fetch fuel bugArray w = Some (w', Fulfilled res) ->
  forall n, isChecked (checkedBugs w') n = true ->
            isChecked (checkedBugs w) n = true \/ n ∈ res.
Proof.
  intros H.
  refine (getAll_run fetch
            (fun _ w w' out =>
               forall res, out = Fulfilled res ->
               forall n, isChecked (checkedBugs w') n = true ->
                         isChecked (checkedBugs w) n = true \/ n ∈ res)
            (fun _ w w' out =>
               forall res, out = Fulfilled res ->
               forall n, isChecked (checkedBugs w') n = true ->
                         isChecked (checkedBugs w) n = true \/ n ∈ res)
            _ _ _ _ _ _ fuel bugArray w w' _ H res eq_refl); clear.
  - intros w res _ n Hn. now left.
  - discriminate.
  - intros batch w dataList infoArray cb w' out _ _ G HQ res E n Hn.
    destruct out as [depends|e]; [|discriminate]. injection E as <-.
    destruct (forEach_purge_spec _ _ _ _ _ _ G) as (_ & _ & _ & S4 & _).
    destruct (HQ depends eq_refl n Hn) as [Hc|Hc].
    + simpl in Hc. destruct (S4 n Hc); [now left|].
      right. apply elem_of_app. now left.
    + right. apply elem_of_app. now right.
  - intros w res _ n Hn. now left.
  - discriminate.
  - intros c bugList w w1 r w2 out HP HQ res E n Hn.
    destruct out as [rs|e]; [|discriminate]. injection E as <-.
    destruct (HQ rs eq_refl n Hn) as [Hc|Hc].
    + destruct (HP r eq_refl n Hc); [now left|].
      right. apply elem_of_app. now left.
    + right. apply elem_of_app. now right.
Qed.

(** X2. Whatever a fulfilled call of [getAll] newly checks it also lists:
    a bug that is checked after the call was checked before it or is in
    the result, for any tracker. *)
Theorem getAll_checks_only_what_it_lists (fetch : Fetch) (fuel : nat)
    (bugArray : BugArg) (w w' : World) (res : list Z) (n : Z) :
  getAll fetch fuel bugArray w = Some (w', Fulfilled res) ->
  isChecked (checkedBugs w') n = true ->
  isChecked (checkedBugs w) n = true \/ n ∈ res.
Proof. intros H. now apply (getAll_newly_checked fetch fuel bugArray w w' res). Qed.

Lemma getAll_checks_only_what_it_lists_witness :
  getAll (serve g_diamond) 3 (Array [1001; 1002]) fresh
    = Some (mkWorld (<[2001 := true]> (<[1002 := true]> (<[1001 := true]> ∅)))
                    [[1001; 1002]; [2001]; [2001; 2002]],
            Fulfilled [1001; 1002; 2001; 2002]) /\
  isChecked (<[2001 := true]> (<[1002 := true]> (<[1001 := true]> ∅))) 2001
    = true /\
  (isChecked (checkedBugs fresh) 2001 = true \/
   2001 ∈ [1001; 1002; 2001; 2002]).
Proof.
  assert (H : getAll (serve g_diamond) 3 (Array [1001; 1002]) fresh
    = Some (mkWorld (<[2001 := true]> (<[1002 := true]> (<[1001 := true]> ∅)))
                    [[1001; 1002]; [2001]; [2001; 2002]],
            Fulfilled [1001; 1002; 2001; 2002]))
    by (vm_compute; reflexivity).
  split; [exact H|]. split; [reflexivity|].
  exact (getAll_checks_only_what_it_lists (serve g_diamond) 3
           (Array [1001; 1002]) fresh _ _ 2001 H eq_refl).
Defined.

Lemma getAll_sent_batches (fetch : Fetch) fuel bugArray w w' out :
  getAll fetch fuel bugArray w = Some (w', out) ->
  exists new, requests w' = requests w ++ new /\ Forall (fun b => b <> []) new.
Proof.
  intros H.
  refine (getAll_run fetch
            (fun _ w w' _ =>
               exists new, requests w' = requests w ++ new /\
                           Forall (fun b => b <> []) new)
            (fun _ w w' _ =>
               exists new, requests w' = requests w ++ new /\
                           Forall (fun b => b <> []) new)
            _ _ _ _ _ _ fuel bugArray w w' out H); clear.
  - intros w. exists []. now rewrite app_nil_r.
  - intros batch w e Hne _. exists [batch]. split; [reflexivity|].
    now repeat constructor.
  - intros batch w dataList infoArray cb w' out Hne _ _ (new & E & Hn).
    exists (batch :: new). split; [rewrite E; simpl; now rewrite <- app_assoc|].
    now constructor.
  - intros w. exists []. now rewrite app_nil_r.
  - intros c bugList w w1 e HP. exact HP.
  - intros c bugList w w1 r w2 out (n1 & E1 & H1) (n2 & E2 & H2).
    exists (n1 ++ n2). split; [now rewrite E2, E1, app_assoc|].
    now apply Forall_app.
Qed.

(** X3. A call of [getAll], however it settles, only adds to what was
    sent to the tracker, and no request it sends is for an empty batch:
    [getBug] is never reached with nothing to ask for. *)
Theorem getAll_never_asks_for_nothing (fetch : Fetch) (fuel : nat)
    (bugArray : BugArg) (w w' : World) (out : Settled (list Z)) :
  getAll fetch fuel bugArray w = Some (w', out) ->
  exists new, requests w' = requests w ++ new /\
              forall batch, batch ∈ new -> batch <> [].
Proof.
  intros H. apply getAll_sent_batches in H as (new & E & Hn).
  exists new. split; [assumption|].
  intros batch Hb. now apply (proj1 (Forall_forall _ _) Hn batch).
Qed.

Lemma getAll_never_asks_for_nothing_witness :
  getAll (serve g_chain) 2 (Single 5000) fresh
    = Some (mkWorld (<[5001 := true]> (<[5000 := true]> ∅)) [[5000]; [5001]],
            Fulfilled [5000; 5001]) /\
  exists new, [[5000]; [5001]] = [] ++ new /\
              forall batch, batch ∈ new -> batch <> [].
Proof.
  assert (H : getAll (serve g_chain) 2 (Single 5000) fresh
    = Some (mkWorld (<[5001 := true]> (<[5000 := true]> ∅)) [[5000]; [5001]],
            Fulfilled [5000; 5001]))
    by (vm_compute; reflexivity).
  split; [exact H|].
  exact (getAll_never_asks_for_nothing (serve g_chain) 2 (Single 5000)
           fresh _ _ H).
Defined.

(** X4. A fulfilled call of [getAll] sends at most one request more than
    it lists entries: one for the roots and at most one per listed
    record. *)
Theorem getAll_requests_bounded (fetch : Fetch) (fuel : nat)
    (bugArray : BugArg) (w w' : World) (res : list Z) :
  getAll fetch fuel bugArray w = Some (w', Fulfilled res) ->
  (length (requests w') <= length (requests w) + S (length res))%nat.
Proof.
  intros H. apply getAll_requests_explained in H as (s0 & new & -> & E & P).
  rewrite E, length_app, P. apply Nat.add_le_mono_l.
  unfold nonempty. etransitivity; [apply length_filter|].
  simpl. now rewrite !length_map.
Qed.

Lemma getAll_requests_bounded_witness :
  getAll (serve g_chain) 2 (Single 5000) fresh
    = Some (mkWorld (<[5001 := true]> (<[5000 := true]> ∅)) [[5000]; [5001]],
            Fulfilled [5000; 5001]) /\
  le (length [[5000]; [5001]])
     (Nat.add (length (requests fresh)) (S (length [5000; 5001]))).
Proof.
  assert (H : getAll (serve g_chain) 2 (Single 5000) fresh
    = Some (mkWorld (<[5001 := true]> (<[5000 := true]> ∅)) [[5000]; [5001]],
            Fulfilled [5000; 5001]))
    by (vm_compute; reflexivity).
  split; [exact H|].
  exact (getAll_requests_bounded (serve g_chain) 2 (Single 5000) fresh _ _ H).
Defined.

(** ** What [getBug] does to an answer *)

Lemma forEach_purge_sublist count : forall position dataList cb,
  fst (forEach_purge count position dataList cb) `sublist_of` dataList.
Proof.
  induction count as [|count IH]; intros position dataList cb; simpl;
    [reflexivity|].
  destruct (dataList !! position) as [bugData|]; [|apply IH].
  destruct (isChecked cb (id bugData)); [|apply IH].
  etransitivity; [apply IH | apply sublist_delete].
Qed.

(** X6. [getBug] answers with a part of what the tracker answered: the
    records it keeps are among the tracker's, in the tracker's order, and
    a record is missing only if its identifier was checked before the call
    or is the identifier of a record that is kept. *)
Theorem getBug_keeps_a_sublist (fetch : Fetch) (bugArray : list Z)
    (w w' : World) (dataList infoArray : list Bug) :
  fetch (requests w) bugArray = Fulfilled dataList ->
  getBug fetch bugArray w = Some (w', Fulfilled infoArray) ->
  infoArray `sublist_of` dataList /\
  forall b, b ∈ dataList ->
    id b ∈ map id infoArray \/ isChecked (checkedBugs w) (id b) = true.
Proof.
  intros F H. unfold getBug in H. rewrite F in H.
  destruct (forEach_purge _ _ _ _) as [purged cb] eqn:G.
  injection H as <- <-. split.
  - pose proof (forEach_purge_sublist (length dataList) 0 dataList
                  (checkedBugs w)) as S. now rewrite G in S.
  - now apply (forEach_purge_spec _ _ _ _ _ _ G).
Qed.

Lemma getBug_keeps_a_sublist_witness :
  serve g_diamond [[1001]] [2001; 2002]
    = Fulfilled [mkBug 2001 None EmptyString []; mkBug 2002 None EmptyString []] /\
  getBug (serve g_diamond) [2001; 2002] (mkWorld (<[2001 := true]> ∅) [[1001]])
    = Some (mkWorld (<[2001 := true]> ∅) [[1001]; [2001; 2002]],
            Fulfilled [mkBug 2002 None EmptyString []]) /\
  [mkBug 2002 None EmptyString []]
    `sublist_of` [mkBug 2001 None EmptyString []; mkBug 2002 None EmptyString []] /\
  forall b,
    b ∈ [mkBug 2001 None EmptyString []; mkBug 2002 None EmptyString []] ->
    id b ∈ map id [mkBug 2002 None EmptyString []] \/
    isChecked (<[2001 := true]> ∅) (id b) = true.
Proof.
  assert (F : serve g_diamond [[1001]] [2001; 2002]
    = Fulfilled [mkBug 2001 None EmptyString []; mkBug 2002 None EmptyString []])
    by reflexivity.
  assert (H : getBug (serve g_diamond) [2001; 2002]
                (mkWorld (<[2001 := true]> ∅) [[1001]])
    = Some (mkWorld (<[2001 := true]> ∅) [[1001]; [2001; 2002]],
            Fulfilled [mkBug 2002 None EmptyString []]))
    by (vm_compute; reflexivity).
  split; [exact F|]. split; [exact H|].
  exact (getBug_keeps_a_sublist (serve g_diamond) [2001; 2002]
           (mkWorld (<[2001 := true]> ∅) [[1001]]) _ _ _ F H).
Defined.

Lemma isChecked_insert_false (cb : gmap Z bool) k n :
  n <> k -> isChecked cb n = false -> isChecked (<[k := true]> cb) n = false.
Proof.
  intros Hne Hc. destruct (isChecked (<[k := true]> cb) n) eqn:E; [|reflexivity].
  apply isChecked_insert in E as [?|E]; congruence.
Qed.

Lemma forEach_purge_unseen count : forall position (l : list Bug) cb,
  NoDup (map id (drop position l)) ->
  (forall b, b ∈ drop position l -> isChecked cb (id b) = false) ->
  exists cb',
    forEach_purge count position l cb = (l, cb') /\
    forall n, isChecked cb' n = true <->
              isChecked cb n = true \/ n ∈ map id (take count (drop position l)).
Proof.
  induction count as [|count IH]; intros position l cb Hnd Hun; simpl.
  - exists cb. split; [reflexivity|]. intros n. simpl.
    rewrite elem_of_nil. tauto.
  - destruct (l !! position) as [b|] eqn:E.
    + rewrite (drop_S _ _ _ E) in Hnd, Hun |- *.
      simpl in Hnd. apply NoDup_cons in Hnd as [Hnotin Hnd].
      rewrite (Hun b (list_elem_of_here _ _)).
      destruct (IH (S position) l (<[id b := true]> cb) Hnd) as (cb' & -> & Hcb').
      * intros b' Hb'. apply isChecked_insert_false.
        -- intros Heq. apply Hnotin. rewrite <- Heq.
           apply list_elem_of_fmap. now exists b'.
        -- apply Hun. now right.
      * exists cb'. split; [reflexivity|]. intros n. rewrite Hcb'.
        rewrite isChecked_insert. simpl. rewrite elem_of_cons. tauto.
    + apply lookup_ge_None in E.
      rewrite (drop_ge l position) in * by assumption.
      destruct (IH (S position) l cb) as (cb' & -> & Hcb').
      * rewrite drop_ge by lia. constructor.
      * rewrite drop_ge by lia. intros b Hb. now apply elem_of_nil in Hb.
      * exists cb'. split; [reflexivity|]. intros n. rewrite Hcb'.
        rewrite drop_ge by lia. now rewrite !take_nil.
Qed.

(** X7. When the tracker answers with records whose identifiers are
    pairwise distinct and none of them checked, [getBug] keeps the whole
    answer as it is and checks exactly these identifiers on top of what
    was checked. *)
Theorem getBug_keeps_an_unseen_answer (fetch : Fetch) (bugArray : list Z)
    (w : World) (dataList : list Bug) :
  fetch (requests w) bugArray = Fulfilled dataList ->
  NoDup (map id dataList) ->
  (forall b, b ∈ dataList -> isChecked (checkedBugs w) (id b) = false) ->
  exists cb',
    getBug fetch bugArray w = Some (sent w cb' bugArray, Fulfilled dataList) /\
    forall n, isChecked cb' n = true <->
              isChecked (checkedBugs w) n = true \/ n ∈ map id dataList.
Proof.
  intros F Hnd Hun. unfold getBug. rewrite F.
  destruct (forEach_purge_unseen (length dataList) 0 dataList (checkedBugs w))
    as (cb' & -> & Hcb'); [now rewrite drop_0 | now rewrite drop_0 |].
  exists cb'. split; [reflexivity|].
  intros n. rewrite Hcb', drop_0, firstn_all. reflexivity.
Qed.

Lemma getBug_keeps_an_unseen_answer_witness :
  serve g_diamond [] [1001; 1002]
    = Fulfilled [mkBug 1001 None EmptyString [2001];
                 mkBug 1002 None EmptyString [2001; 2002]] /\
  NoDup (map id [mkBug 1001 None EmptyString [2001];
                 mkBug 1002 None EmptyString [2001; 2002]]) /\
  (forall b, b ∈ [mkBug 1001 None EmptyString [2001];
                  mkBug 1002 None EmptyString [2001; 2002]] ->
             isChecked (checkedBugs fresh) (id b) = false) /\
  exists cb',
    getBug (serve g_diamond) [1001; 1002] fresh
      = Some (sent fresh cb' [1001; 1002],
              Fulfilled [mkBug 1001 None EmptyString [2001];
                         mkBug 1002 None EmptyString [2001; 2002]]) /\
    forall n, isChecked cb' n = true <->
              isChecked (checkedBugs fresh) n = true \/
              n ∈ map id [mkBug 1001 None EmptyString [2001];
                          mkBug 1002 None EmptyString [2001; 2002]].
Proof.
  assert (F : serve g_diamond [] [1001; 1002]
    = Fulfilled [mkBug 1001 None EmptyString [2001];
                 mkBug 1002 None EmptyString [2001; 2002]]) by reflexivity.
  assert (Hnd : NoDup (map id [mkBug 1001 None EmptyString [2001];
                               mkBug 1002 None EmptyString [2001; 2002]])).
  { simpl. apply NoDup_cons. split.
    - intros H. apply list_elem_of_singleton in H. discriminate.
    - apply NoDup_singleton. }
  assert (Hun : forall b, b ∈ [mkBug 1001 None EmptyString [2001];
                               mkBug 1002 None EmptyString [2001; 2002]] ->
                          isChecked (checkedBugs fresh) (id b) = false)
    by (intros b _; apply isChecked_empty).
  split; [exact F|]. split; [exact Hnd|]. split; [exact Hun|].
  exact (getBug_keeps_an_unseen_answer (serve g_diamond) [1001; 1002] fresh _
           F Hnd Hun).
Defined.

(** ** The first script: [getAll] lists records *)

Section FirstTraversal.

Variable fetch : Fetch.

Lemma First_reduce_from (rec : BugArg -> Promise (list Bug))
    (bugList : list Bug) (p : Promise (list Bug)) w :
  fold_left
    (fun p c =>
       then_ p (fun partial =>
         then_ (rec (Array (depends_on c))) (fun depList =>
           resolve (partial ++ depList))))
    bugList p w
  = match p w with
    | None => None
    | Some (w1, RejectedWith e) => Some (w1, RejectedWith e)
    | Some (w1, Fulfilled partial) =>
      match First.getDependencies rec bugList w1 with
      | None => None
      | Some (w2, Fulfilled rs) => Some (w2, Fulfilled (partial ++ rs))
      | Some (w2, RejectedWith e) => Some (w2, RejectedWith e)
      end
    end.
Proof.
  revert p w. induction bugList as [|c l IH]; intros p w.
  - simpl. destruct (p w) as [[w1 [partial|e]]|]; try reflexivity.
    unfold First.getDependencies, resolve. simpl. now rewrite app_nil_r.
  - simpl. rewrite IH. unfold then_ at 1.
    destruct (p w) as [[w1 [partial|e]]|]; try reflexivity.
    unfold First.getDependencies at 2. simpl. rewrite IH.
    unfold then_, resolve.
    destruct (rec (Array (depends_on c)) w1) as [[w2 [r|e]]|]; try reflexivity.
    destruct (First.getDependencies rec l w2) as [[w3 [rs|e]]|];
      try reflexivity.
    now rewrite app_assoc.
Qed.

Lemma First_getDependencies_cons (rec : BugArg -> Promise (list Bug)) c l w :
  First.getDependencies rec (c :: l) w
  = match rec (Array (depends_on c)) w with
    | None => None
    | Some (w1, RejectedWith e) => Some (w1, RejectedWith e)
    | Some (w1, Fulfilled r) =>
      match First.getDependencies rec l w1 with
      | None => None
      | Some (w2, Fulfilled rs) => Some (w2, Fulfilled (r ++ rs))
      | Some (w2, RejectedWith e) => Some (w2, RejectedWith e)
      end
    end.
Proof.
  unfold First.getDependencies at 1. simpl. rewrite First_reduce_from.
  unfold then_, resolve.
  destruct (rec (Array (depends_on c)) w) as [[w1 [r|e]]|]; reflexivity.
Qed.

Lemma First_getDependencies_ids (rec1 : BugArg -> Promise (list Bug))
    (rec2 : BugArg -> Promise (list Z)) :
  (forall bugArray w,
      rec2 bugArray w = match rec1 bugArray w with
                        | None => None
                        | Some (w', out) => Some (w', ids_of out)
                        end) ->
  forall bugList w,
    getDependencies rec2 bugList w
    = match First.getDependencies rec1 bugList w with
      | None => None
      | Some (w', out) => Some (w', ids_of out)
      end.
Proof.
  intros H bugList. induction bugList as [|c l IH]; intros w; [reflexivity|].
  rewrite getDependencies_cons, First_getDependencies_cons, H.
  destruct (rec1 (Array (depends_on c)) w) as [[w1 [r|e]]|]; try reflexivity.
  simpl. rewrite IH.
  destruct (First.getDependencies rec1 l w1) as [[w2 [rs|e]]|];
    try reflexivity.
  simpl. now rewrite map_app.
Qed.

Lemma First_getAll_ids fuel : forall bugArray w,
  getAll fetch fuel bugArray w
  = match First.getAll fetch fuel bugArray w with
    | None => None
    | Some (w', out) => Some (w', ids_of out)
    end.
Proof.
  induction fuel as [|fuel IH]; intros bugArray w.
  - simpl. destruct (array_concat bugArray); reflexivity.
  - destruct (array_concat bugArray) as [|n rest] eqn:E.
    + rewrite getAll_empty by assumption. simpl. now rewrite E.
    + rewrite getAll_step by congruence. simpl. rewrite E.
      unfold then_, First.getBug.
      destruct (fetch (requests w) (n :: rest)) as [dataList|e];
        [|reflexivity].
      destruct (forEach_purge _ _ _ _) as [infoArray cb].
      rewrite (First_getDependencies_ids _ _ IH).
      destruct (First.getDependencies _ _ _) as [[w2 [depends|e]]|];
        try reflexivity.
      unfold resolve. simpl. now rewrite map_app.
Qed.

End FirstTraversal.

(** X8. The traversal of the first script and the one of the later
    scripts differ in what they list and in nothing else: for any
    tracker, batch and page they send the same requests, leave the same
    [checkedBugs], settle the same way, and the identifiers of the
    records the first lists are the identifiers the later ones list. *)
Theorem First_getAll_lists_the_same_bugs (fetch : Fetch) (fuel : nat)
    (bugArray : BugArg) (w : World) :
  getAll fetch fuel bugArray w
  = match First.getAll fetch fuel bugArray w with
    | None => None
    | Some (w', out) => Some (w', ids_of out)
    end.
Proof. apply First_getAll_ids. Qed.

(** ** The first script: [filterBugs] *)

Lemma forEach_classify_spec (l : list Bug) : forall metas taken fixed,
  Forall (fun b => summary b <> None) l ->
  First.forEach_classify l metas taken fixed
  = Fulfilled (metas ++ List.filter says_meta l,
               taken ++ List.filter (fun b => negb (says_meta b)) l,
               fixed ++ List.filter First.isClosed
                          (List.filter (fun b => negb (says_meta b)) l)).
Proof.
  induction l as [|b l IH]; intros metas taken fixed Hs.
  - simpl. now rewrite !app_nil_r.
  - apply Forall_cons in Hs as [Hb Hs]. simpl.
    destruct (First.isMeta b) as [[|]|e] eqn:M.
    + assert (Hm : says_meta b = true) by (unfold says_meta; now rewrite M).
      rewrite Hm. simpl. rewrite IH by assumption. now rewrite <- !app_assoc.
    + assert (Hm : says_meta b = false) by (unfold says_meta; now rewrite M).
      rewrite Hm. simpl. rewrite IH by assumption.
      destruct (First.isClosed b); simpl; now rewrite <- !app_assoc.
    + exfalso. unfold First.isMeta in M.
      destruct (summary b) as [s|]; [|congruence].
      destruct (String.index 0 "meta" (GetAllJs.toLowerCase s)); discriminate.
Qed.

Lemma filter_partition_length {A} (f : A -> bool) (l : list A) :
  (length (List.filter f l) + length (List.filter (fun x => negb (f x)) l)
   = length l)%nat.
Proof.
  induction l as [|x l IH]; [reflexivity|].
  simpl. destruct (f x); simpl; lia.
Qed.

Lemma filter_partition_perm {A} (f : A -> bool) (l : list A) :
  List.filter f l ++ List.filter (fun x => negb (f x)) l ≡ₚ l.
Proof.
  induction l as [|x l IH]; [reflexivity|].
  simpl. destruct (f x); simpl.
  - now constructor.
  - rewrite <- Permutation_middle. now constructor.
Qed.

(** X9. Given a list of bugs that all have a summary, [filterBugs] of the
    first script counts every bug once: [total] is the length of the
    list, [metas] are the bugs [isMeta] accepts and [taken] the others,
    both in the order of the list, so that together they are the list
    again; [fixed] are the closed bugs among [taken]. *)
Theorem First_filterBugs_partitions (l : list Bug) :
  Forall (fun b => summary b <> None) l ->
  exists c,
    First.filterBugs (Some l) = Fulfilled (Some c) /\
    First.total c = length l /\
    First.metas c = List.filter says_meta l /\
    First.taken c = List.filter (fun b => negb (says_meta b)) l /\
    First.fixed c = List.filter First.isClosed (First.taken c) /\
    (length (First.metas c) + length (First.taken c) = First.total c)%nat /\
    First.metas c ++ First.taken c ≡ₚ l.
Proof.
  intros Hs. unfold First.filterBugs.
  rewrite (forEach_classify_spec l [] [] [] Hs). simpl.
  eexists. split; [reflexivity|]. simpl.
  repeat split; auto using filter_partition_length, filter_partition_perm.
Qed.

Lemma First_filterBugs_partitions_witness :
  Forall (fun b => summary b <> None)
    [mkBug 1 (Some "[meta] Hello 1.2"%string) EmptyString [2];
     mkBug 2 (Some "Fix the panel"%string) "FIXED" []] /\
  exists c,
    First.filterBugs
      (Some [mkBug 1 (Some "[meta] Hello 1.2"%string) EmptyString [2];
             mkBug 2 (Some "Fix the panel"%string) "FIXED" []])
      = Fulfilled (Some c) /\
    First.total c = length
      [mkBug 1 (Some "[meta] Hello 1.2"%string) EmptyString [2];
       mkBug 2 (Some "Fix the panel"%string) "FIXED" []] /\
    First.metas c = List.filter says_meta
      [mkBug 1 (Some "[meta] Hello 1.2"%string) EmptyString [2];
       mkBug 2 (Some "Fix the panel"%string) "FIXED" []] /\
    First.taken c = List.filter (fun b => negb (says_meta b))
      [mkBug 1 (Some "[meta] Hello 1.2"%string) EmptyString [2];
       mkBug 2 (Some "Fix the panel"%string) "FIXED" []] /\
    First.fixed c = List.filter First.isClosed (First.taken c) /\
    (length (First.metas c) + length (First.taken c) = First.total c)%nat /\
    First.metas c ++ First.taken c ≡ₚ
      [mkBug 1 (Some "[meta] Hello 1.2"%string) EmptyString [2];
       mkBug 2 (Some "Fix the panel"%string) "FIXED" []].
Proof.
  assert (Hs : Forall (fun b => summary b <> None)
    [mkBug 1 (Some "[meta] Hello 1.2"%string) EmptyString [2];
     mkBug 2 (Some "Fix the panel"%string) "FIXED" []])
    by (repeat constructor; discriminate).
  split; [exact Hs|].
  exact (First_filterBugs_partitions _ Hs).
Defined.

Lemma forEach_classify_throws (l : list Bug) : forall metas taken fixed,
  (exists b, b ∈ l /\ summary b = None) ->
  First.forEach_classify l metas taken fixed
  = RejectedWith (TypeError "bug.summary is undefined").
Proof.
  induction l as [|b l IH]; intros metas taken fixed (b0 & Hin & Hno).
  - now apply elem_of_nil in Hin.
  - simpl. unfold First.isMeta at 1.
    destruct (summary b) as [s|] eqn:E; [|reflexivity].
    assert (Hl : exists b, b ∈ l /\ summary b = None).
    { apply elem_of_cons in Hin as [->|Hin]; [congruence | eauto]. }
    destruct (String.index 0 "meta" (GetAllJs.toLowerCase s));
      now apply IH.
Qed.

(** X10. [filterBugs] of the first script throws, with the [TypeError] of
    [bug.summary.toLowerCase()], exactly when some bug of the list has no
    summary; no classification is returned then, not even of the bugs
    before that one. *)
Theorem First_filterBugs_throws_without_summary (l : list Bug) :
  First.filterBugs (Some l)
    = RejectedWith (TypeError "bug.summary is undefined")
  <-> exists b, b ∈ l /\ summary b = None.
Proof.
  split.
  - intros H.
    assert (Hdec : forall b : Bug, {summary b = None} + {summary b <> None})
      by (intros b; destruct (summary b); [right; discriminate | now left]).
    destruct (List.Exists_dec (fun b => summary b = None) l Hdec) as [He|Hn].
    + apply Exists_exists in He as (b & Hin & Hb). now exists b.
    + exfalso. assert (Hs : Forall (fun b => summary b <> None) l).
      { apply Forall_forall. intros b Hb E. apply Hn, Exists_exists.
        now exists b. }
      destruct (First_filterBugs_partitions l Hs) as (c & Hc & _).
      congruence.
  - intros He. unfold First.filterBugs.
    now rewrite (forEach_classify_throws l [] [] [] He).
Qed.

(** ** The first script: from a release to its counts *)

(** X11. For a release that names a bug, what the page of the first
    script goes on to print is a count of the traversal's list: when
    [getAll] is fulfilled with records that all have a summary,
    [getRel] followed by [filterBugs] leaves the world as [getAll] leaves
    it and resolves with a classification whose [total] is the number of
    records listed and whose [metas] and [taken] share these records out
    between them. *)
Theorem classifyRelease_counts_the_traversal (fetch : Fetch) (fuel : nat)
    (r : First.Release) (b : BugArg) (w w' : World) (l : list Bug) :
  First.bug r = Some b ->
  First.truthy b = true ->
  First.getAll fetch fuel b w = Some (w', Fulfilled l) ->
  Forall (fun bug => summary bug <> None) l ->
  exists c,
    First.classifyRelease fetch fuel (Some r) w = Some (w', Fulfilled (Some c)) /\
    First.total c = length l /\
    First.metas c ++ First.taken c ≡ₚ l.
Proof.
  intros Hb Ht H Hs.
  destruct (First_filterBugs_partitions l Hs) as (c & Hc & Htot & _ & _ & _ & _ & Hp).
  exists c. split; [|now split].
  unfold First.classifyRelease, First.getReleaseData. rewrite Hb, Ht. simpl.
  unfold then_. rewrite H. unfold resolve, GetAllJs.settle. now rewrite Hc.
Qed.

Lemma classifyRelease_counts_the_traversal_witness :
  First.bug (First.mkRelease "1.2" "25/01/2016" "---" (Some (Single 5000)))
    = Some (Single 5000) /\
  First.truthy (Single 5000) = true /\
  First.getAll
    (with_summary "[meta] Hello 1.2" (serve g_chain)) 2 (Single 5000) fresh
    = Some (mkWorld (<[5001 := true]> (<[5000 := true]> ∅)) [[5000]; [5001]],
            Fulfilled
              [mkBug 5000 (Some "[meta] Hello 1.2"%string) EmptyString [5001];
               mkBug 5001 (Some "[meta] Hello 1.2"%string) EmptyString []]) /\
  Forall (fun bug => summary bug <> None)
    [mkBug 5000 (Some "[meta] Hello 1.2"%string) EmptyString [5001];
     mkBug 5001 (Some "[meta] Hello 1.2"%string) EmptyString []] /\
  exists c,
    First.classifyRelease
      (with_summary "[meta] Hello 1.2" (serve g_chain)) 2
      (Some (First.mkRelease "1.2" "25/01/2016" "---" (Some (Single 5000))))
      fresh
    = Some (mkWorld (<[5001 := true]> (<[5000 := true]> ∅)) [[5000]; [5001]],
            Fulfilled (Some c)) /\
    First.total c
    = length [mkBug 5000 (Some "[meta] Hello 1.2"%string) EmptyString [5001];
              mkBug 5001 (Some "[meta] Hello 1.2"%string) EmptyString []] /\
    First.metas c ++ First.taken c ≡ₚ
      [mkBug 5000 (Some "[meta] Hello 1.2"%string) EmptyString [5001];
       mkBug 5001 (Some "[meta] Hello 1.2"%string) EmptyString []].
Proof.
  assert (Hb : First.bug
                 (First.mkRelease "1.2" "25/01/2016" "---" (Some (Single 5000)))
               = Some (Single 5000)) by reflexivity.
  assert (Ht : First.truthy (Single 5000) = true) by reflexivity.
  assert (H : First.getAll
    (with_summary "[meta] Hello 1.2" (serve g_chain)) 2 (Single 5000) fresh
    = Some (mkWorld (<[5001 := true]> (<[5000 := true]> ∅)) [[5000]; [5001]],
            Fulfilled
              [mkBug 5000 (Some "[meta] Hello 1.2"%string) EmptyString [5001];
               mkBug 5001 (Some "[meta] Hello 1.2"%string) EmptyString []]))
    by (vm_compute; reflexivity).
  assert (Hs : Forall (fun bug => summary bug <> None)
    [mkBug 5000 (Some "[meta] Hello 1.2"%string) EmptyString [5001];
     mkBug 5001 (Some "[meta] Hello 1.2"%string) EmptyString []])
    by (repeat constructor; discriminate).
  split; [exact Hb|]. split; [exact Ht|]. split; [exact H|]. split; [exact Hs|].
  exact (classifyRelease_counts_the_traversal _ 2 _ _ fresh _ _ Hb Ht H Hs).
Defined.

(** ** The two tests for meta bugs *)

Lemma meta_then_close_shape (s : string) :
  Bugziller.meta_then_close s = true ->
  exists d rest,
    s = String "m" (String "e" (String "t" (String "a" (String d rest)))).
Proof.
  intros H.
  destruct s as [|[[] [] [] [] [] [] [] []] s]; simpl in H; try discriminate.
  destruct s as [|[[] [] [] [] [] [] [] []] s]; simpl in H; try discriminate.
  destruct s as [|[[] [] [] [] [] [] [] []] s]; simpl in H; try discriminate.
  destruct s as [|[[] [] [] [] [] [] [] []] s]; simpl in H; try discriminate.
  destruct s as [|d s]; [discriminate|].
  now exists d, s.
Qed.

Lemma index_cons_Some (s1 s2 : string) (c : ascii) (k : nat) :
  String.index 0 s1 s2 = Some k ->
  exists k', String.index 0 s1 (String c s2) = Some k'.
Proof.
  intros H.
  change (String.index 0 s1 (String c s2))
    with (if String.prefix s1 (String c s2) then Some 0%nat
          else match String.index 0 s1 s2 with
               | Some n => Some (S n)
               | None => None
               end).
  destruct (String.prefix s1 (String c s2)); [eauto|]. rewrite H. eauto.
Qed.

Lemma metaReg_test_index (s : string) :
  Bugziller.metaReg_test s = true ->
  exists k, String.index 0 "meta" (GetAllJs.toLowerCase s) = Some k.
Proof.
  induction s as [|c s IH]; [discriminate|].
  change (Bugziller.metaReg_test (String c s))
    with ((Bugziller.is_open c && Bugziller.meta_then_close s)
          || Bugziller.metaReg_test s)%bool.
  change (GetAllJs.toLowerCase (String c s))
    with (String (GetAllJs.lower_ascii c) (GetAllJs.toLowerCase s)).
  intros H. apply orb_true_iff in H as [H|H].
  - apply andb_true_iff in H as [_ H].
    apply meta_then_close_shape in H as (d & rest & ->).
    apply index_cons_Some with 0%nat. vm_compute. reflexivity.
  - destruct (IH H) as [k Hk]. now apply index_cons_Some with k.
Qed.

(** X12. The test of the later scripts is the stricter one: every bug
    their [isMeta] accepts, [meta] between brackets, bars or parentheses,
    the [isMeta] of the first script accepts too, without throwing. *)
Theorem isMeta_later_implies_first (b : Bug) :
  Bugziller.isMeta (Some b) = true -> First.isMeta b = Fulfilled true.
Proof.
  unfold Bugziller.isMeta, First.isMeta.
  destruct (summary b) as [s|]; [|discriminate].
  destruct s as [|c s]; [discriminate|]. intros H.
  now destruct (metaReg_test_index _ H) as [k ->].
Qed.

Lemma isMeta_later_implies_first_witness :
  Bugziller.isMeta
    (Some (mkBug 1 (Some "[meta] Hello 1.2"%string) EmptyString [])) = true /\
  First.isMeta (mkBug 1 (Some "[meta] Hello 1.2"%string) EmptyString [])
    = Fulfilled true.
Proof.
  split; [reflexivity|].
  exact (isMeta_later_implies_first
           (mkBug 1 (Some "[meta] Hello 1.2"%string) EmptyString []) eq_refl).
Defined.

(** The converse fails: a summary that merely mentions meta. *)
Example isMeta_first_accepts_more :
  First.isMeta (mkBug 1 (Some "Metadata is lost"%string) EmptyString [])
    = Fulfilled true /\
  Bugziller.isMeta (Some (mkBug 1 (Some "Metadata is lost"%string) EmptyString []))
    = false.
Proof. split; reflexivity. Qed.

(** ** Status *)

(** X13. A fixed bug is a closed bug: whatever [isFixed] accepts
    [isClosed] accepts. *)
Theorem isFixed_implies_isClosed (b : Bug) :
  Later.isFixed b = true -> Later.isClosed b = true.
Proof.
  unfold Later.isFixed, Later.isClosed. intros H.
  apply String.eqb_eq in H. now rewrite H.
Qed.

Lemma isFixed_implies_isClosed_witness :
  Later.isFixed (mkBug 1 None "FIXED" []) = true /\
  Later.isClosed (mkBug 1 None "FIXED" []) = true.
Proof.
  split; [reflexivity|].
  exact (isFixed_implies_isClosed (mkBug 1 None "FIXED" []) eq_refl).
Defined.

(** ** The later scripts: [filterBugs] *)

Lemma forEach_metas_beyond count : forall pos (l metas : list Bug),
  (length l <= pos)%nat -> Later.forEach_metas count pos l metas = (metas, l).
Proof.
  induction count as [|count IH]; intros pos l metas Hp; [reflexivity|].
  simpl. rewrite (proj2 (lookup_ge_None l pos) Hp). apply IH. lia.
Qed.

(** Nothing is lost and nothing but meta bugs is moved; what lies before
    [pos] stays where it is. *)
Lemma forEach_metas_spec count : forall pos (l metas m d : list Bug),
  Later.forEach_metas count pos l metas = (m, d) ->
  (exists added,
      m = metas ++ added /\ added ++ d ≡ₚ l /\
      Forall (fun b => marked_meta b = true) added) /\
  (forall j, (j < pos)%nat -> d !! j = l !! j).
Proof.
  induction count as [|count IH]; intros pos l metas m d H;
    cbn [Later.forEach_metas] in H.
  - injection H as <- <-. split; [|auto].
    exists []. rewrite app_nil_r. now repeat split.
  - destruct (l !! pos) as [bug|] eqn:E.
    + destruct (Bugziller.isMeta (Some bug)) eqn:M.
      * apply IH in H as [(added & -> & Hp & Ha) Hpre]. split.
        -- exists (bug :: added). rewrite <- app_assoc. split; [reflexivity|].
           split; [|now constructor].
           simpl. rewrite Hp. symmetry. now apply delete_Permutation.
        -- intros j Hj. rewrite Hpre by lia. now apply list_lookup_delete_lt.
      * apply IH in H as [Hadd Hpre]. split; [assumption|].
        intros j Hj. apply Hpre. lia.
    + apply IH in H as [Hadd Hpre]. split; [assumption|].
      intros j Hj. apply Hpre. lia.
Qed.

Lemma clean_spec (l : list Bug) :
  exists c,
    Later.clean (Some l) = Fulfilled c /\
    Later.metas c ++ Later.done c ≡ₚ l /\
    Forall (fun b => marked_meta b = true) (Later.metas c).
Proof.
  unfold Later.clean.
  destruct (Later.forEach_metas (length l) 0 l []) as [m d] eqn:E.
  apply forEach_metas_spec in E as [(added & -> & Hp & Ha) _].
  eexists. split; [reflexivity|]. simpl. now split.
Qed.

Lemma map_clean_spec (ls : list (list Bug)) :
  exists cs,
    Later.map_clean (map Some ls) = Fulfilled cs /\
    Forall2 (fun l c =>
               Later.metas c ++ Later.done c ≡ₚ l /\
               Forall (fun b => marked_meta b = true) (Later.metas c))
            ls cs.
Proof.
  induction ls as [|l ls (cs & Hcs & IH)].
  - exists []. split; [reflexivity | constructor].
  - destruct (clean_spec l) as (c & Hc & Hp & Hm).
    exists (c :: cs). cbn [map Later.map_clean]. rewrite Hc, Hcs.
    split; [reflexivity | now constructor].
Qed.

(** X14. Given its three lists, [filterBugs] of the later scripts returns
    three entries, one per list and in their order, and loses no bug:
    the [metas] and the [done] of an entry are together the bugs of its
    list, each once, and every bug among the [metas] is one that [isMeta]
    accepts. *)
Theorem Later_filterBugs_loses_nothing (ls : list (list Bug)) :
  length ls = 3%nat ->
  exists cs,
    Later.filterBugs (Some (map Some ls)) = Fulfilled (Some cs) /\
    Forall2 (fun l c =>
               Later.metas c ++ Later.done c ≡ₚ l /\
               Forall (fun b => marked_meta b = true) (Later.metas c))
            ls cs.
Proof.
  intros H3. destruct (map_clean_spec ls) as (cs & Hcs & Hall).
  exists cs. split; [|assumption].
  unfold Later.filterBugs. rewrite length_map, H3. simpl. now rewrite Hcs.
Qed.

Lemma Later_filterBugs_loses_nothing_witness :
  length [[mkBug 1 (Some "[meta] Hello 1.2"%string) EmptyString []];
          []; [mkBug 2 (Some "Fix the panel"%string) "FIXED" []]] = 3%nat /\
  exists cs,
    Later.filterBugs
      (Some (map Some
         [[mkBug 1 (Some "[meta] Hello 1.2"%string) EmptyString []];
          []; [mkBug 2 (Some "Fix the panel"%string) "FIXED" []]]))
      = Fulfilled (Some cs) /\
    Forall2 (fun l c =>
               Later.metas c ++ Later.done c ≡ₚ l /\
               Forall (fun b => marked_meta b = true) (Later.metas c))
      [[mkBug 1 (Some "[meta] Hello 1.2"%string) EmptyString []];
       []; [mkBug 2 (Some "Fix the panel"%string) "FIXED" []]] cs.
Proof.
  split; [reflexivity|].
  exact (Later_filterBugs_loses_nothing
           [[mkBug 1 (Some "[meta] Hello 1.2"%string) EmptyString []];
            []; [mkBug 2 (Some "Fix the panel"%string) "FIXED" []]] eq_refl).
Defined.

Lemma no_adjacent_metas_cons2 (x y : Bug) (s : list Bug) :
  Later.no_adjacent_metas (x :: y :: s)
  = (negb (marked_meta x && marked_meta y)
     && Later.no_adjacent_metas (y :: s))%bool.
Proof. reflexivity. Qed.

Lemma no_adjacent_metas_tail (x : Bug) (s : list Bug) :
  Later.no_adjacent_metas (x :: s) = true -> Later.no_adjacent_metas s = true.
Proof.
  destruct s as [|y s]; [reflexivity|]. rewrite no_adjacent_metas_cons2.
  intros H. now apply andb_true_iff in H as [_ H].
Qed.

Lemma forEach_metas_alternating count : forall (s pre metas : list Bug),
  Later.no_adjacent_metas s = true ->
  (length s <= count)%nat ->
  Later.forEach_metas count (length pre) (pre ++ s) metas
  = (metas ++ List.filter marked_meta s,
     pre ++ List.filter (fun b => negb (marked_meta b)) s).
Proof.
  induction count as [|count IH]; intros s pre metas Hs Hc.
  - destruct s; [|simpl in Hc; lia]. simpl. now rewrite !app_nil_r.
  - destruct s as [|x s].
    + rewrite forEach_metas_beyond by (rewrite app_nil_r; lia).
      simpl. now rewrite !app_nil_r.
    + cbn [Later.forEach_metas].
      rewrite list_lookup_middle by reflexivity.
      change (Bugziller.isMeta (Some x)) with (marked_meta x).
      cbn [List.filter]. destruct (marked_meta x) eqn:M; cbn [negb].
      * rewrite delete_middle. destruct s as [|y s].
        -- rewrite forEach_metas_beyond by (rewrite app_nil_r; lia).
           simpl. now rewrite !app_nil_r.
        -- rewrite no_adjacent_metas_cons2, M in Hs.
           apply andb_true_iff in Hs as [My Hs]. simpl in My.
           apply negb_true_iff in My. apply no_adjacent_metas_tail in Hs.
           replace (pre ++ y :: s) with ((pre ++ [y]) ++ s)
             by now rewrite <- app_assoc.
           replace (S (length pre)) with (length (pre ++ [y]))
             by (rewrite length_app; simpl; lia).
           rewrite IH by (try assumption; simpl in Hc; lia).
           cbn [List.filter]. rewrite My. cbn [negb].
           now rewrite <- !app_assoc.
      * apply no_adjacent_metas_tail in Hs.
        replace (pre ++ x :: s) with ((pre ++ [x]) ++ s)
          by now rewrite <- app_assoc.
        replace (S (length pre)) with (length (pre ++ [x]))
          by (rewrite length_app; simpl; lia).
        rewrite IH by (try assumption; simpl in Hc; lia).
        now rewrite <- !app_assoc.
Qed.

(** X15. On a list in which no meta bug is directly followed by another
    meta bug the cleaning is exact: [metas] are the bugs [isMeta] accepts,
    [done] the others, both in the order of the list. *)
Theorem Later_clean_is_exact (l : list Bug) :
  Later.no_adjacent_metas l = true ->
  Later.clean (Some l)
  = Fulfilled (Later.mkCleaned (List.filter marked_meta l)
                 (List.filter (fun b => negb (marked_meta b)) l)).
Proof.
  intros H. unfold Later.clean.
  pose proof (forEach_metas_alternating (length l) l [] [] H (le_n _)) as E.
  simpl in E. now rewrite E.
Qed.

Lemma Later_clean_is_exact_witness :
  Later.no_adjacent_metas
    [mkBug 1 (Some "[meta] Hello 1.2"%string) EmptyString [];
     mkBug 2 (Some "Fix the panel"%string) "FIXED" [];
     mkBug 3 (Some "(meta) Rooms"%string) EmptyString []] = true /\
  Later.clean
    (Some [mkBug 1 (Some "[meta] Hello 1.2"%string) EmptyString [];
           mkBug 2 (Some "Fix the panel"%string) "FIXED" [];
           mkBug 3 (Some "(meta) Rooms"%string) EmptyString []])
  = Fulfilled
      (Later.mkCleaned
         (List.filter marked_meta
            [mkBug 1 (Some "[meta] Hello 1.2"%string) EmptyString [];
             mkBug 2 (Some "Fix the panel"%string) "FIXED" [];
             mkBug 3 (Some "(meta) Rooms"%string) EmptyString []])
         (List.filter (fun b => negb (marked_meta b))
            [mkBug 1 (Some "[meta] Hello 1.2"%string) EmptyString [];
             mkBug 2 (Some "Fix the panel"%string) "FIXED" [];
             mkBug 3 (Some "(meta) Rooms"%string) EmptyString []])).
Proof.
  split; [reflexivity|].
  exact (Later_clean_is_exact
           [mkBug 1 (Some "[meta] Hello 1.2"%string) EmptyString [];
            mkBug 2 (Some "Fix the panel"%string) "FIXED" [];
            mkBug 3 (Some "(meta) Rooms"%string) EmptyString []] eq_refl).
Defined.

Lemma forEach_metas_pass (mid : list Bug) : forall (pre s metas : list Bug) count,
  Forall (fun b => marked_meta b = false) mid ->
  Later.forEach_metas (length mid + count) (length pre) (pre ++ mid ++ s) metas
  = Later.forEach_metas count (length pre + length mid) (pre ++ mid ++ s) metas.
Proof.
  induction mid as [|y mid IH]; intros pre s metas count Hm.
  - simpl. now rewrite Nat.add_0_r.
  - apply Forall_cons in Hm as [Hy Hm].
    change (pre ++ (y :: mid) ++ s) with (pre ++ y :: (mid ++ s)).
    cbn [length Nat.add Later.forEach_metas].
    rewrite list_lookup_middle by reflexivity.
    change (Bugziller.isMeta (Some y)) with (marked_meta y). rewrite Hy.
    replace (pre ++ y :: mid ++ s) with ((pre ++ [y]) ++ mid ++ s)
      by now rewrite <- app_assoc.
    replace (S (length pre)) with (length (pre ++ [y]))
      by (rewrite length_app; simpl; lia).
    rewrite IH by assumption. f_equal. rewrite length_app. simpl. lia.
Qed.

(** X16. The bug that directly follows the first meta bug of a list is
    never tested: it stays in [done] whatever it is, so that a meta bug
    following the first meta bug is left among the bugs that count. *)
Theorem Later_clean_skips_after_meta (pre rest : list Bug) (m x : Bug) :
  Forall (fun b => marked_meta b = false) pre ->
  marked_meta m = true ->
  exists c,
    Later.clean (Some (pre ++ m :: x :: rest)) = Fulfilled c /\
    x ∈ Later.done c.
Proof.
  intros Hpre Hm. unfold Later.clean.
  destruct (Later.forEach_metas _ 0 _ []) as [metas d] eqn:E.
  eexists. split; [reflexivity|]. simpl.
  rewrite length_app in E. cbn [length] in E.
  pose proof (forEach_metas_pass pre [] (m :: x :: rest) []
                (S (S (length rest))) Hpre) as Hp.
  cbn [length app Nat.add] in Hp. rewrite Hp in E. clear Hp.
  cbn [Later.forEach_metas] in E.
  rewrite list_lookup_middle in E by reflexivity.
  change (Bugziller.isMeta (Some m)) with (marked_meta m) in E.
  rewrite Hm, delete_middle in E.
  change (Later.forEach_metas (S (length rest)) (S (length pre))
            (pre ++ x :: rest) ([] ++ [m]) = (metas, d)) in E.
  apply forEach_metas_spec in E as [_ Hkeep].
  apply list_elem_of_lookup. exists (length pre).
  rewrite Hkeep by lia. now apply list_lookup_middle.
Qed.

Lemma Later_clean_skips_after_meta_witness :
  Forall (fun b => marked_meta b = false)
    [mkBug 2 (Some "Fix the panel"%string) "FIXED" []] /\
  marked_meta (mkBug 1 (Some "[meta] Hello 1.2"%string) EmptyString []) = true /\
  exists c,
    Later.clean
      (Some ([mkBug 2 (Some "Fix the panel"%string) "FIXED" []]
             ++ mkBug 1 (Some "[meta] Hello 1.2"%string) EmptyString []
             :: mkBug 3 (Some "(meta) Rooms"%string) EmptyString [] :: []))
      = Fulfilled c /\
    mkBug 3 (Some "(meta) Rooms"%string) EmptyString [] ∈ Later.done c.
Proof.
  assert (Hpre : Forall (fun b => marked_meta b = false)
                   [mkBug 2 (Some "Fix the panel"%string) "FIXED" []])
    by (repeat constructor).
  split; [exact Hpre|]. split; [reflexivity|].
  exact (Later_clean_skips_after_meta _ []
           (mkBug 1 (Some "[meta] Hello 1.2"%string) EmptyString [])
           (mkBug 3 (Some "(meta) Rooms"%string) EmptyString []) Hpre eq_refl).
Defined.

(** ** getAll.js: the single-bug [getAll] *)

(** X17. Called with the number of a bug that is not checked, the
    single-bug [getAll] of getAll.js sends one request for that bug and
    is then rejected, with the tracker's reason or with the [TypeError]
    of [bugList.split]: it checks nothing and lists nothing.  Called with
    a checked bug it resolves with the empty list and sends nothing. *)
Theorem getAll_single_is_rejected (fetch : Fetch) (fuel : nat) (bugNumber : Z)
    (w : World) :
  GetAllJs.getAll fetch (S fuel) bugNumber w
  = if isChecked (checkedBugs w) bugNumber
    then Some (w, Fulfilled [])
    else Some (sent w (checkedBugs w) [bugNumber],
               RejectedWith
                 match fetch (requests w) [bugNumber] with
                 | RejectedWith e => e
                 | Fulfilled _ => TypeError "bugList.split is not a function"
                 end).
Proof.
  simpl. destruct (isChecked (checkedBugs w) bugNumber); [reflexivity|].
  unfold then_, GetAllJs.getBug.
  destruct (fetch (requests w) [bugNumber]); reflexivity.
Qed.
